(** * Allowlists: loading and lookup

    A shallow embedding of
    [src/google/protobuf/compiler/allowlists/allowlists.cc]: the loader
    [GetContents] / [LoadAllowlist], the lazily built registry
    [LoadAllowlists] and the query [IsAllowlisted]. *)

From Stdlib Require Import Ascii.
From Stdlib Require String.
From stdpp Require Import base option list gmap strings.
From Equations.Prop Require Import Equations Logic.

(** ** [internal::AllowlistInfo] *)

Module internal.

(** Modelled from the spec: the declaration of [internal::AllowlistFlags]
    in [allowlist.h] is not among the sources.  The two enumerators used by
    [allowlists.cc] are kept; they are the spec's [EmptyListPolicy]
    ([kNone] is [DenyAll], [kAllowAllWhenEmpty] is [AllowAll]). *)
Inductive AllowlistFlags : Set :=
  | kNone
  | kAllowAllWhenEmpty.

#[global] Instance AllowlistFlags_eq_dec : EqDecision AllowlistFlags.
Proof. solve_decision. Defined.

(** Modelled from the spec: the class [internal::AllowlistInfo] of
    [allowlist.h] is not among the sources.  It owns a set of entries
    (uniqueness enforced, order irrelevant) and one policy flag. *)
Record AllowlistInfo : Type := mkAllowlistInfo {
  allowlist : gset string;
  flag : AllowlistFlags
}.

(** Modelled from the spec: [AllowlistInfo::empty()], true when the entry
    set has no element. *)
Definition empty (info : AllowlistInfo) : bool :=
  bool_decide (allowlist info = ∅).

(** Modelled from the spec: [AllowlistInfo::IsAllowlisted(file)], whether
    [file] is exactly contained in the entry set. *)
Definition IsAllowlisted (info : AllowlistInfo) (file : string) : bool :=
  bool_decide (file ∈ allowlist info).

End internal.

(** ** Input streams *)

(** The end-of-line character, the delimiter of [std::getline]. *)
Definition newline : ascii := "010"%char.

(** What the code observes of a [std::ifstream]: the characters not yet
    read and the two state bits.  A stream that could not be opened has
    [failbit] set. *)
Record ifstream : Type := mkIfstream {
  rdbuf : string;
  eofbit : bool;
  failbit : bool
}.

(** [operator bool] of a stream: [!fail()]. *)
Definition ifstream_ok (ifs : ifstream) : bool := negb (failbit ifs).

(** [good()]: no state bit is set. *)
Definition good (ifs : ifstream) : bool := negb (eofbit ifs) && negb (failbit ifs).

(** The extraction loop of [std::getline]: characters are moved to the line
    until the delimiter is met (extracted, not stored) or the input ends.
    The result is the line, the rest of the input and whether the end of
    the input was hit. *)
Fixpoint extract_line (s : string) : string * string * bool :=
  match s with
  | EmptyString => (EmptyString, EmptyString, true)
  | String c s' =>
      if Ascii.eqb c newline then (EmptyString, s', false)
      else let '(l, r, e) := extract_line s' in (String c l, r, e)
  end.

(** [std::getline(ifs, line)]: on a stream that is not [good] nothing is
    extracted and [failbit] is set; otherwise a line is extracted, [eofbit]
    is set when the input ended, and [failbit] when no character at all was
    extracted.  [Some line] stands for a stream that converts to [true]. *)
Definition getline (ifs : ifstream) : option string * ifstream :=
  if good ifs then
    let '(l, r, e) := extract_line (rdbuf ifs) in
    if e && bool_decide (l = EmptyString)
    then (None, mkIfstream r true true)
    else (Some l, mkIfstream r e false)
  else (None, mkIfstream (rdbuf ifs) (eofbit ifs) true).

(** Number of calls of [getline] a stream can still answer with a line,
    bounded from above. *)
Definition pending (ifs : ifstream) : nat :=
  if good ifs then S (String.length (rdbuf ifs)) else 0.

(** [absl::StartsWith(line, "//")]. *)
Definition StartsWith (text prefix : string) : bool := String.prefix prefix text.

(** The loop of [GetContents]:
    [while (std::getline(ifstream, line)) if (!StartsWith(line, "//")) contents.insert(line);] *)
Equations while_getline (ifs : ifstream) (contents : gset string) : gset string
  by wf (pending ifs) lt :=
while_getline ifs contents with inspect (getline ifs) := {
  | exist _ (Some line, ifs') Hgl =>
      while_getline ifs'
        (if negb (StartsWith line "//") then {[ line ]} ∪ contents else contents)
  | exist _ (None, _) Hgl => contents
}.
Next Obligation.
  (* each successful [getline] shortens what is left to read *)
  assert (Hlen : ∀ s l r e, extract_line s = (l, r, e) →
            String.length r + (if e then 0 else 1) + String.length l
            = String.length s).
  { induction s as [|c s IH]; intros l r e; simpl.
    - intros [= <- <- <-]. reflexivity.
    - destruct (Ascii.eqb c newline).
      + intros [= <- <- <-]. simpl. lia.
      + destruct (extract_line s) as [[l' r'] e'].
        intros [= <- <- <-]. specialize (IH _ _ _ eq_refl). simpl. lia. }
  revert Hgl. unfold getline, pending.
  destruct (good ifs) eqn:Hg; [|discriminate].
  destruct (extract_line (rdbuf ifs)) as [[l r] e] eqn:He.
  apply Hlen in He.
  destruct (e && bool_decide (l = EmptyString)) eqn:Hc; [discriminate|].
  intros [= <- <-]. unfold good; simpl.
  destruct e; simpl in *; lia.
Qed.

(** ** The process and its environment *)

(** What the code reads from outside the process:
    [devtools_build::GetRunfilesDir()] and, for each path, the characters of
    the file a [std::ifstream] opened there would deliver ([None] when the
    file cannot be opened, for whatever reason). *)
Record World : Type := mkWorld {
  GetRunfilesDir : string;
  file_contents : string → option string
}.

(** [using AllowlistMap = absl::flat_hash_map<std::string, internal::AllowlistInfo>]. *)
Abbreviation AllowlistMap := (gmap string internal.AllowlistInfo).

(** The state of a process as far as this file touches it: the function-local
    static of [LoadAllowlists] ([None] before its initialisation) and the
    paths on which a [std::ifstream] was constructed, oldest first. *)
Record process : Type := mkProcess {
  static_map : option AllowlistMap;
  opened : list string
}.

(** A process that has not called into this file yet. *)
Definition initial_process : process := mkProcess None [].

(** The two ways in which the code ends the process. *)
Inductive fatal : Set :=
  | CheckFailed   (* a failed [ABSL_CHECK] *)
  | OutOfRange.   (* [flat_hash_map::at] on a missing key *)

Inductive exec (A : Type) : Type :=
  | Ret (a : A) (p : process)
  | Fatal (why : fatal).
Arguments Ret {A} a p.
Arguments Fatal {A} why.

(** Computations of the process: state passing, with fatal termination. *)
Definition M (A : Type) : Type := process → exec A.

#[global] Instance M_mret : MRet M := fun A (a : A) p => Ret a p.

#[global] Instance M_bind : MBind M := fun A B (k : A → M B) (m : M A) p =>
  match m p with
  | Ret a p' => k a p'
  | Fatal why => Fatal why
  end.

(** [ABSL_CHECK(cond)]: always compiled in, ends the process when [cond]
    is false. *)
Definition ABSL_CHECK (cond : bool) : M unit :=
  fun p => if cond then Ret tt p else Fatal CheckFailed.

(** [std::ifstream(path)]: the attempt is recorded; a file that cannot be
    opened gives a stream with [failbit] set. *)
Definition open_ifstream (w : World) (path : string) : M ifstream :=
  fun p =>
    Ret (match file_contents w path with
         | Some s => mkIfstream s false false
         | None => mkIfstream EmptyString false true
         end)
        (mkProcess (static_map p) (opened p ++ [path])).

(** ** The loader *)

Definition kAllowlistPathPrefix : string :=
  "third_party/protobuf/compiler/allowlists/".

Definition GetContents (w : World) (path : string) : M (gset string) :=
  let full_path := GetRunfilesDir w +:+ "/google3/" +:+ path in
  ifs ← open_ifstream w full_path ;
  let contents : gset string := ∅ in
  ifs ← (if negb (ifstream_ok ifs) then open_ifstream w path else mret ifs) ;
  if ifstream_ok ifs then mret (while_getline ifs contents) else mret contents.

(** [map->emplace(key, value)]: nothing is changed when the key is present. *)
Definition emplace (key : string) (value : internal.AllowlistInfo)
    (map : AllowlistMap) : AllowlistMap :=
  match map !! key with
  | Some _ => map
  | None => <[key := value]> map
  end.

(** [LoadAllowlist(allowlist_path, map, flag)]; the map behind the pointer
    is passed in and handed back. *)
Definition LoadAllowlist (w : World) (allowlist_path : string)
    (map : AllowlistMap) (flag : internal.AllowlistFlags) : M AllowlistMap :=
  let local_path := kAllowlistPathPrefix +:+ allowlist_path +:+ ".txt" in
  contents ← GetContents w local_path ;
  mret (emplace allowlist_path (internal.mkAllowlistInfo contents flag) map).

(** The overload [LoadAllowlist(allowlist_path, map)]. *)
Definition LoadAllowlist_kNone (w : World) (allowlist_path : string)
    (map : AllowlistMap) : M AllowlistMap :=
  LoadAllowlist w allowlist_path map internal.kNone.

(** ** The registry *)

(** The initialiser of the static in [LoadAllowlists]. *)
Definition LoadAllowlists_init (w : World) : M AllowlistMap :=
  let m : AllowlistMap := ∅ in
  m ← LoadAllowlist_kNone w "weak_imports" m ;
  m ← LoadAllowlist w "test_allowlist_empty_allow_all" m
        internal.kAllowAllWhenEmpty ;
  m ← LoadAllowlist_kNone w "test_allowlist_empty_allow_none" m ;
  m ← LoadAllowlist_kNone w "test_allowlist" m ;
  mret m.

(** Reading and initialising the static of [LoadAllowlists]. *)
Definition get_static : M (option AllowlistMap) :=
  fun p => Ret (static_map p) p.

Definition set_static (m : AllowlistMap) : M unit :=
  fun p => Ret tt (mkProcess (Some m) (opened p)).

(** [LoadAllowlists()]: the static is initialised by the first call that
    reaches it, later calls hand out a copy of it. *)
Definition LoadAllowlists (w : World) : M AllowlistMap :=
  s ← get_static ;
  match s with
  | Some map => mret map
  | None =>
      m ← LoadAllowlists_init w ;
      set_static m ;;
      mret m
  end.

(** [map.at(key)]. *)
Definition at_ (map : AllowlistMap) (key : string) : M internal.AllowlistInfo :=
  fun p => match map !! key with
           | Some info => Ret info p
           | None => Fatal OutOfRange
           end.

(** ** The query *)

Definition IsAllowlisted (w : World) (allowlist file : string) : M bool :=
  map ← LoadAllowlists w ;
  ABSL_CHECK (bool_decide (is_Some (map !! allowlist))) ;;
  info ← at_ map allowlist ;
  if negb (internal.empty info)
  then mret (internal.IsAllowlisted info file)
  else mret (bool_decide (internal.flag info = internal.kAllowAllWhenEmpty)).

(** A query as a process run sees it: the environment at the time of the
    call and the two arguments. *)
Record query : Type := mkQuery {
  q_world : World;
  q_allowlist : string;
  q_file : string
}.

(** Calls of [IsAllowlisted] one after the other in one process. *)
Fixpoint run (qs : list query) : M (list bool) :=
  match qs with
  | [] => mret []
  | q :: qs' =>
      b ← IsAllowlisted (q_world q) (q_allowlist q) (q_file q) ;
      bs ← run qs' ;
      mret (b :: bs)
  end.

(** * Notions used in the statements *)

(** ** Lines of a text *)

(** A newline as a string. *)
Definition nl : string := String newline EmptyString.

(** Whether a string holds a newline. *)
Fixpoint has_newline (s : string) : bool :=
  match s with
  | EmptyString => false
  | String c s' => Ascii.eqb c newline || has_newline s'
  end.

(** [l] is a line of the text [s]: it starts at the beginning of [s] or
    right after a newline, holds no newline, and is followed by a newline
    or, when it is not empty, by the end of [s]. *)
Definition line_of (s l : string) : Prop :=
  ∃ pre post,
    s = pre +:+ l +:+ post
    ∧ (pre = EmptyString ∨ ∃ pre', pre = pre' +:+ nl)
    ∧ has_newline l = false
    ∧ ((∃ post', post = String newline post') ∨ (post = EmptyString ∧ l ≠ EmptyString)).

(** Texts made of terminated lines only. *)
Inductive whole_lines : string → Prop :=
  | whole_lines_nil : whole_lines EmptyString
  | whole_lines_cons (l0 r : string) :
      has_newline l0 = false → whole_lines r →
      whole_lines (l0 +:+ String newline r).

(** ** What the loader computes *)

(** The first candidate location of [GetContents]. *)
Definition full_path_of (w : World) (path : string) : string :=
  GetRunfilesDir w +:+ "/google3/" +:+ path.

(** The relative path that [LoadAllowlist] hands to [GetContents]. *)
Definition local_path_of (allowlist_path : string) : string :=
  kAllowlistPathPrefix +:+ allowlist_path +:+ ".txt".

(** The text [GetContents] reads, if any: that of the first candidate when
    it can be opened, else that of the second. *)
Definition backing_file (w : World) (path : string) : option string :=
  match file_contents w (full_path_of w path) with
  | Some s => Some s
  | None => file_contents w path
  end.

(** The streams constructed by one call of [GetContents]. *)
Definition attempts (w : World) (path : string) : list string :=
  full_path_of w path ::
  match file_contents w (full_path_of w path) with
  | Some _ => []
  | None => [path]
  end.

(** The set returned by one call of [GetContents]. *)
Definition entries_of (w : World) (path : string) : gset string :=
  match backing_file w path with
  | Some s => while_getline (mkIfstream s false false) ∅
  | None => ∅
  end.

(** The boolean [IsAllowlisted] computes once it holds the info. *)
Definition answer (info : internal.AllowlistInfo) (file : string) : bool :=
  if negb (internal.empty info)
  then internal.IsAllowlisted info file
  else bool_decide (internal.flag info = internal.kAllowAllWhenEmpty).

(** The map the initialiser of the static builds. *)
Definition registry (w : World) : AllowlistMap :=
  let load name flag :=
    emplace name (internal.mkAllowlistInfo (entries_of w (local_path_of name)) flag) in
  load "test_allowlist" internal.kNone
    (load "test_allowlist_empty_allow_none" internal.kNone
       (load "test_allowlist_empty_allow_all" internal.kAllowAllWhenEmpty
          (load "weak_imports" internal.kNone ∅))).

(** The streams the initialiser of the static constructs. *)
Definition registry_attempts (w : World) : list string :=
  attempts w (local_path_of "weak_imports")
  ++ attempts w (local_path_of "test_allowlist_empty_allow_all")
  ++ attempts w (local_path_of "test_allowlist_empty_allow_none")
  ++ attempts w (local_path_of "test_allowlist").

(** ** Processes that calls of [IsAllowlisted] can produce *)

Inductive reachable : process → Prop :=
  | reachable_initial : reachable initial_process
  | reachable_call (w : World) (allowlist file : string) (p p' : process) (b : bool) :
      reachable p →
      IsAllowlisted w allowlist file p = Ret b p' →
      reachable p'.

(** ** Two concrete environments *)

(** The runtime-files tree holds an empty [test_allowlist_empty_allow_all.txt];
    [test_allowlist.txt] is found under the working directory only, with a
    comment, two entries and no newline at its end. *)
Definition example_world : World :=
  mkWorld "/runfiles"
    (fun path =>
       if bool_decide (path = "/runfiles/google3/third_party/protobuf/compiler/allowlists/test_allowlist_empty_allow_all.txt")
       then Some EmptyString
       else if bool_decide (path = "third_party/protobuf/compiler/allowlists/test_allowlist.txt")
       then Some ("// comment" +:+ nl +:+ "a/b.c" +:+ nl +:+ "d/e.c")
       else None).

(** The environment [example_world] with the comment line of
    [test_allowlist.txt] taken out. *)
Definition uncommented_world : World :=
  mkWorld "/runfiles"
    (fun path =>
       if bool_decide (path = "third_party/protobuf/compiler/allowlists/test_allowlist.txt")
       then Some ("a/b.c" +:+ nl +:+ "d/e.c")
       else None).

(** An environment with a single file. *)
Definition single_file_world (path content : string) : World :=
  mkWorld "/runfiles"
    (fun p => if bool_decide (p = path) then Some content else None).

(** * Properties *)

(** ** Lines of a text *)

Section StringFacts.

Lemma append_cons (x : ascii) (a b : string) :
  String x a +:+ b = String x (a +:+ b).
Proof. reflexivity. Qed.

Lemma append_nil_l (a : string) : EmptyString +:+ a = a.
Proof. reflexivity. Qed.

Lemma append_assoc (a b c : string) : (a +:+ b) +:+ c = a +:+ (b +:+ c).
Proof.
  induction a as [|x a IH]; [reflexivity|].
  by rewrite !append_cons, IH.
Qed.

Lemma append_nil_r (a : string) : a +:+ EmptyString = a.
Proof.
  induction a as [|x a IH]; [reflexivity|].
  by rewrite append_cons, IH.
Qed.

Lemma append_eq_nil (a b : string) :
  a +:+ b = EmptyString → a = EmptyString ∧ b = EmptyString.
Proof. destruct a; [auto | discriminate]. Qed.

Lemma has_newline_append (a b : string) :
  has_newline (a +:+ b) = has_newline a || has_newline b.
Proof.
  induction a as [|x a IH]; [reflexivity|].
  rewrite append_cons. simpl. by rewrite IH, orb_assoc.
Qed.

(** Where the first newline of a text is. *)
Lemma first_newline (l0 r x y : string) :
  has_newline l0 = false →
  l0 +:+ String newline r = x +:+ String newline y →
  (x = l0 ∧ y = r)
  ∨ ∃ x', x = l0 +:+ String newline x' ∧ r = x' +:+ String newline y.
Proof.
  revert x. induction l0 as [|c l0 IH]; intros x Hl0 Heq.
  - rewrite append_nil_l in Heq. destruct x as [|c' x].
    + left. rewrite append_nil_l in Heq. by inversion Heq.
    + right. rewrite append_cons in Heq. inversion Heq; subst. by exists x.
  - simpl in Hl0. apply orb_false_iff in Hl0 as [Hc Hl0].
    rewrite append_cons in Heq. destruct x as [|c' x].
    + rewrite append_nil_l in Heq. inversion Heq; subst.
      by rewrite Ascii.eqb_refl in Hc.
    + rewrite append_cons in Heq. inversion Heq; subst.
      destruct (IH x Hl0 H1) as [[-> ->] | (x' & -> & ->)]; [by left|].
      right. by exists x'.
Qed.

Lemma extract_line_spec (s l r : string) (e : bool) :
  extract_line s = (l, r, e) →
  has_newline l = false
  ∧ if e then s = l ∧ r = EmptyString else s = l +:+ String newline r.
Proof.
  revert l r e. induction s as [|c s IH]; intros l r e; simpl.
  - by intros [= <- <- <-].
  - destruct (Ascii.eqb c newline) eqn:Hc.
    + apply Ascii.eqb_eq in Hc as ->. by intros [= <- <- <-].
    + destruct (extract_line s) as [[l' r'] e'].
      intros [= <- <- <-].
      destruct (IH _ _ _ eq_refl) as [Hl' Hs]. simpl. rewrite Hc, Hl'.
      split; [reflexivity|].
      destruct e'; [destruct Hs as [-> ->]; done |].
      by rewrite append_cons, Hs.
Qed.

End StringFacts.

Section Lines.

Lemma line_of_nil (l : string) : ¬ line_of EmptyString l.
Proof.
  intros (pre & post & Hs & _ & _ & Hpost).
  symmetry in Hs. apply append_eq_nil in Hs as [_ Hs].
  apply append_eq_nil in Hs as [-> ->].
  destruct Hpost as [[? ?] | [_ ?]]; done.
Qed.

(** A text without newline that is not empty is its own single line. *)
Lemma line_of_last (l0 l : string) :
  has_newline l0 = false → l0 ≠ EmptyString →
  line_of l0 l ↔ l = l0.
Proof.
  intros Hl0 Hne. split.
  - intros (pre & post & -> & Hpre & Hl & Hpost).
    rewrite !has_newline_append in Hl0.
    apply orb_false_iff in Hl0 as [Hp Hl0].
    apply orb_false_iff in Hl0 as [_ Hpo].
    destruct Hpre as [-> | [pre' ->]].
    + destruct Hpost as [[post' ->] | [-> _]]; [by simpl in Hpo|].
      by rewrite append_nil_l, append_nil_r.
    + unfold nl in Hp. rewrite has_newline_append in Hp.
      by rewrite orb_true_r in Hp.
  - intros ->. exists EmptyString, EmptyString.
    rewrite append_nil_l, append_nil_r.
    split_and!; [done | by left | done | by right].
Qed.

(** The lines of a text are its first line and the lines of what follows
    the first newline. *)
Lemma line_of_cons (l0 r l : string) :
  has_newline l0 = false →
  line_of (l0 +:+ String newline r) l ↔ l = l0 ∨ line_of r l.
Proof.
  intros Hl0. split.
  - intros (pre & post & Hs & Hpre & Hl & Hpost).
    destruct Hpre as [-> | [pre' ->]].
    + left. rewrite append_nil_l in Hs.
      destruct Hpost as [[post' ->] | [-> _]].
      * by destruct (first_newline _ _ _ _ Hl0 Hs) as [[-> _] | (x' & -> & _)];
          [|rewrite has_newline_append, orb_true_r in Hl].
      * rewrite append_nil_r in Hs. subst l.
        by rewrite has_newline_append, orb_true_r in Hl.
    + right. unfold nl in Hs. rewrite append_assoc, append_cons, append_nil_l in Hs.
      destruct (first_newline _ _ _ _ Hl0 Hs) as [[-> Hr] | (x' & -> & Hr)].
      * exists EmptyString, post. rewrite append_nil_l. eauto.
      * exists (x' +:+ nl), post. split_and!; eauto.
        unfold nl. by rewrite append_assoc.
  - intros [-> | (pre & post & -> & Hpre & Hl & Hpost)].
    + exists EmptyString, (String newline r). split_and!; eauto.
    + exists (l0 +:+ String newline pre), post. split_and!; eauto.
      * by rewrite append_assoc, append_cons.
      * right. destruct Hpre as [-> | [pre' ->]].
        -- by exists l0.
        -- exists (l0 +:+ String newline pre').
           by rewrite append_assoc, append_cons.
Qed.

End Lines.

(** ** What the reading loop collects *)

Section ReadingLoop.

Lemma getline_Some (ifs ifs' : ifstream) (line : string) :
  getline ifs = (Some line, ifs') →
  good ifs = true
  ∧ has_newline line = false
  ∧ ((rdbuf ifs = line ∧ line ≠ EmptyString ∧ good ifs' = false)
     ∨ (∃ r, rdbuf ifs = line +:+ String newline r
             ∧ ifs' = mkIfstream r false false)).
Proof.
  unfold getline. destruct (good ifs) eqn:Hg; [|discriminate].
  destruct (extract_line (rdbuf ifs)) as [[l r] e] eqn:He.
  apply extract_line_spec in He as [Hl Hs].
  destruct e; simpl.
  - destruct Hs as [Hs ->]. case_bool_decide as Hne; [discriminate|].
    intros [= <- <-]. split_and!; [done..|]. left. by rewrite Hs.
  - intros [= <- <-]. split_and!; [done..|]. right. by exists r.
Qed.

Lemma getline_None (ifs ifs' : ifstream) :
  getline ifs = (None, ifs') →
  good ifs = false ∨ rdbuf ifs = EmptyString.
Proof.
  unfold getline. destruct (good ifs) eqn:Hg; [|by left].
  destruct (extract_line (rdbuf ifs)) as [[l r] e] eqn:He.
  apply extract_line_spec in He as [Hl Hs].
  destruct e; simpl; [|discriminate].
  destruct Hs as [Hs ->]. case_bool_decide as Hne; [|discriminate].
  intros _. right. by rewrite Hs.
Qed.

(** The loop adds to [contents] the lines of the unread input that do not
    start with the comment marker, and nothing else. *)
Lemma while_getline_spec (ifs : ifstream) (contents : gset string) (l : string) :
  l ∈ while_getline ifs contents
  ↔ l ∈ contents
    ∨ (good ifs = true ∧ line_of (rdbuf ifs) l ∧ StartsWith l "//" = false).
Proof.
  revert l. funelim (while_getline ifs contents); intros l.
  - rewrite H. clear H H0 Heqcall.
    apply getline_Some in Hgl as (Hg & Hline & Hcase).
    destruct Hcase as [(Hs & Hne & Hg') | (r & Hs & ->)].
    + rewrite Hg', Hs, Hg. rewrite (line_of_last line) by done.
      destruct (StartsWith line "//") eqn:Hc; simpl;
        rewrite ?elem_of_union, ?elem_of_singleton;
        intuition (subst; congruence).
    + rewrite Hs, Hg. simpl. rewrite (line_of_cons line) by done.
      destruct (StartsWith line "//") eqn:Hc; simpl;
        rewrite ?elem_of_union, ?elem_of_singleton;
        intuition (subst; congruence).
  - clear H Heqcall. apply getline_None in Hgl as [Hg | Hs].
    + rewrite Hg. intuition congruence.
    + rewrite Hs. pose proof (line_of_nil l). tauto.
Qed.

End ReadingLoop.

(** ** What the loader computes *)

Section Loader.
Context (w : World).

Lemma GetContents_eq (path : string) (p : process) :
  GetContents w path p
  = Ret (entries_of w path)
        (mkProcess (static_map p) (opened p ++ attempts w path)).
Proof.
  unfold GetContents, entries_of, backing_file, attempts, mbind, M_bind,
    open_ifstream, full_path_of.
  destruct (file_contents w (GetRunfilesDir w +:+ "/google3/" +:+ path))
    as [s|]; simpl; [done|].
  destruct (file_contents w path) as [s|]; simpl;
    by rewrite <- app_assoc.
Qed.

Lemma LoadAllowlist_eq (name : string) (map : AllowlistMap)
    (flag : internal.AllowlistFlags) (p : process) :
  LoadAllowlist w name map flag p
  = Ret (emplace name
           (internal.mkAllowlistInfo (entries_of w (local_path_of name)) flag) map)
        (mkProcess (static_map p)
           (opened p ++ attempts w (local_path_of name))).
Proof.
  unfold LoadAllowlist, mbind, M_bind. by rewrite GetContents_eq.
Qed.

Lemma LoadAllowlists_init_eq (p : process) :
  LoadAllowlists_init w p
  = Ret (registry w)
        (mkProcess (static_map p) (opened p ++ registry_attempts w)).
Proof.
  unfold LoadAllowlists_init, LoadAllowlist_kNone, mbind, M_bind.
  rewrite !LoadAllowlist_eq. simpl.
  unfold registry, registry_attempts. by rewrite <- !app_assoc.
Qed.

Lemma LoadAllowlists_eq (p : process) :
  LoadAllowlists w p
  = match static_map p with
    | Some map => Ret map p
    | None => Ret (registry w)
                (mkProcess (Some (registry w)) (opened p ++ registry_attempts w))
    end.
Proof.
  unfold LoadAllowlists, get_static, mbind, M_bind.
  destruct (static_map p) as [map|]; [done|].
  by rewrite LoadAllowlists_init_eq.
Qed.

Lemma IsAllowlisted_eq (allowlist file : string) (p : process) :
  IsAllowlisted w allowlist file p
  = match LoadAllowlists w p with
    | Ret map p' =>
        match map !! allowlist with
        | Some info => Ret (answer info file) p'
        | None => Fatal CheckFailed
        end
    | Fatal why => Fatal why
    end.
Proof.
  unfold IsAllowlisted, mbind, M_bind.
  destruct (LoadAllowlists w p) as [map p'|why]; [|done].
  unfold ABSL_CHECK, at_, answer.
  destruct (map !! allowlist) as [info|] eqn:Hm.
  - rewrite bool_decide_eq_true_2 by eauto.
    by destruct (negb (internal.empty info)).
  - rewrite bool_decide_eq_false_2; [done|]. by intros [? ?].
Qed.

End Loader.

(** ** The registry as built *)

Section Registry.
Context (w : World).

Let info_of (name : string) (flag : internal.AllowlistFlags) :=
  internal.mkAllowlistInfo (entries_of w (local_path_of name)) flag.

(** The four names are distinct, so no [emplace] is a no-op. *)
Lemma registry_inserts :
  registry w
  = <["test_allowlist" := info_of "test_allowlist" internal.kNone]>
      (<["test_allowlist_empty_allow_none" :=
           info_of "test_allowlist_empty_allow_none" internal.kNone]>
         (<["test_allowlist_empty_allow_all" :=
              info_of "test_allowlist_empty_allow_all" internal.kAllowAllWhenEmpty]>
            (<["weak_imports" := info_of "weak_imports" internal.kNone]> ∅))).
Proof.
  unfold registry, emplace.
  rewrite lookup_empty.
  rewrite lookup_insert_ne by done. rewrite lookup_empty.
  rewrite !(lookup_insert_ne _ _ "test_allowlist_empty_allow_none") by done.
  rewrite lookup_empty.
  rewrite !(lookup_insert_ne _ _ "test_allowlist") by done.
  by rewrite lookup_empty.
Qed.

Lemma registry_dom :
  dom (registry w)
  = {[ "weak_imports"; "test_allowlist_empty_allow_all";
       "test_allowlist_empty_allow_none"; "test_allowlist" ]}.
Proof.
  rewrite registry_inserts, !dom_insert_L, dom_empty_L.
  apply set_eq. intros x.
  rewrite !elem_of_union, !elem_of_singleton, elem_of_empty. tauto.
Qed.

(** Every entry of the registry holds what [GetContents] read for the
    name, and has a configured flag. *)
Lemma registry_lookup (n : string) (info : internal.AllowlistInfo) :
  registry w !! n = Some info →
  internal.allowlist info = entries_of w (local_path_of n).
Proof.
  rewrite registry_inserts.
  rewrite !lookup_insert, lookup_empty.
  repeat case_decide; subst; intros [= <-]; reflexivity.
Qed.

End Registry.

(** ** Calls of [IsAllowlisted] *)

Section Calls.

(** [LoadAllowlists] always returns, and leaves the static initialised
    with the map it returns. *)
Lemma LoadAllowlists_returns (w : World) (p : process) :
  ∃ m p', LoadAllowlists w p = Ret m p' ∧ static_map p' = Some m.
Proof.
  rewrite LoadAllowlists_eq. destruct (static_map p) as [m|] eqn:Hp; eauto.
Qed.

(** Once the static is initialised a call changes nothing. *)
Lemma LoadAllowlists_initialised (w : World) (p : process) (m : AllowlistMap) :
  static_map p = Some m → LoadAllowlists w p = Ret m p.
Proof. intros Hp. by rewrite LoadAllowlists_eq, Hp. Qed.

Lemma LoadAllowlists_static (w : World) (p p' : process) (m : AllowlistMap) :
  LoadAllowlists w p = Ret m p' →
  static_map p' = Some m
  ∧ (static_map p = Some m ∨ (static_map p = None ∧ m = registry w)).
Proof.
  rewrite LoadAllowlists_eq. destruct (static_map p) as [m0|] eqn:Hp.
  - intros [= <- <-]. auto.
  - intros [= <- <-]. auto.
Qed.

Lemma IsAllowlisted_Ret (w : World) (n f : string) (p p' : process) (b : bool) :
  IsAllowlisted w n f p = Ret b p' →
  ∃ m info, LoadAllowlists w p = Ret m p'
            ∧ m !! n = Some info ∧ b = answer info f.
Proof.
  rewrite IsAllowlisted_eq.
  destruct (LoadAllowlists w p) as [m p1|] eqn:Hm; [|discriminate].
  destruct (m !! n) as [info|] eqn:Hn; [|discriminate].
  intros [= <- <-]. eauto.
Qed.

Lemma IsAllowlisted_initialised (w : World) (n f : string) (p : process)
    (m : AllowlistMap) :
  static_map p = Some m →
  IsAllowlisted w n f p
  = match m !! n with
    | Some info => Ret (answer info f) p
    | None => Fatal CheckFailed
    end.
Proof.
  intros Hp. by rewrite IsAllowlisted_eq, (LoadAllowlists_initialised _ _ _ Hp).
Qed.

(** The static of a reachable process, once initialised, holds a map built
    by the initialiser in some environment. *)
Lemma reachable_static (p : process) (m : AllowlistMap) :
  reachable p → static_map p = Some m → ∃ w0, m = registry w0.
Proof.
  intros Hr. revert m. induction Hr as [|w n f p p' b Hr IH Hcall]; intros m.
  - discriminate.
  - apply IsAllowlisted_Ret in Hcall as (m' & info & Hload & _ & _).
    apply LoadAllowlists_static in Hload as [Hp' [Hp | [_ ->]]].
    + rewrite Hp'. intros [= <-]. eauto.
    + rewrite Hp'. intros [= <-]. eauto.
Qed.

(** The entries of a map read by a reachable process are lines that do
    not start with the comment marker. *)
Lemma reachable_entries (w : World) (p p' : process) (m : AllowlistMap)
    (n : string) (info : internal.AllowlistInfo) :
  reachable p → LoadAllowlists w p = Ret m p' → m !! n = Some info →
  ∃ w0, internal.allowlist info = entries_of w0 (local_path_of n).
Proof.
  intros Hr Hload Hn.
  apply LoadAllowlists_static in Hload as [_ [Hp | [_ ->]]].
  - destruct (reachable_static _ _ Hr Hp) as [w0 ->].
    exists w0. by apply registry_lookup.
  - exists w. by apply registry_lookup.
Qed.

End Calls.

(** ** The query *)

(** C1. For a registered name whose loaded entry set is not empty,
    [IsAllowlisted] returns true exactly when the file is an element of that
    set, that is, equal as a string to one of its entries. *)
Theorem IsAllowlisted_nonempty_iff_entry (w : World) (p p' : process)
    (m : AllowlistMap) (n f : string) (info : internal.AllowlistInfo) :
  LoadAllowlists w p = Ret m p' →
  m !! n = Some info →
  internal.allowlist info ≠ ∅ →
  ∃ b, IsAllowlisted w n f p = Ret b p'
       ∧ (b = true ↔ ∃ e, e ∈ internal.allowlist info ∧ f = e).
Proof.
  intros Hload Hn Hne. rewrite IsAllowlisted_eq, Hload, Hn.
  eexists; split; [reflexivity|].
  unfold answer, internal.empty, internal.IsAllowlisted.
  rewrite bool_decide_eq_false_2 by done. simpl.
  rewrite bool_decide_eq_true. split; [eauto | by intros (e & He & ->)].
Qed.

Lemma IsAllowlisted_nonempty_iff_entry_witness :
  let info := internal.mkAllowlistInfo {[ "a/b.c"; "d/e.c" ]} internal.kNone in
  let p' := mkProcess (Some (registry example_world)) (registry_attempts example_world) in
  LoadAllowlists example_world initial_process = Ret (registry example_world) p'
  ∧ registry example_world !! "test_allowlist" = Some info
  ∧ internal.allowlist info ≠ ∅
  ∧ ∃ b, IsAllowlisted example_world "test_allowlist" "a/b" initial_process = Ret b p'
         ∧ (b = true ↔ ∃ e, e ∈ internal.allowlist info ∧ "a/b" = e).
Proof.
  intros info p'.
  assert (H1 : LoadAllowlists example_world initial_process
               = Ret (registry example_world) p') by reflexivity.
  assert (H2 : registry example_world !! "test_allowlist" = Some info)
    by reflexivity.
  assert (H3 : internal.allowlist info ≠ ∅)
    by (apply (bool_decide_eq_false_1 _); reflexivity).
  split_and!; [exact H1 | exact H2 | exact H3 |].
  exact (IsAllowlisted_nonempty_iff_entry example_world initial_process p'
           (registry example_world) "test_allowlist" "a/b" info H1 H2 H3).
Defined.

(** C2. For a registered name whose loaded entry set is empty,
    [IsAllowlisted] returns true for every file when the flag of the list is
    [kAllowAllWhenEmpty] and false for every file when it is [kNone]. *)
Theorem IsAllowlisted_empty_policy (w : World) (p p' : process)
    (m : AllowlistMap) (n f : string) (info : internal.AllowlistInfo) :
  LoadAllowlists w p = Ret m p' →
  m !! n = Some info →
  internal.allowlist info = ∅ →
  IsAllowlisted w n f p
  = Ret (match internal.flag info with
         | internal.kAllowAllWhenEmpty => true
         | internal.kNone => false
         end) p'.
Proof.
  intros Hload Hn He. rewrite IsAllowlisted_eq, Hload, Hn.
  unfold answer, internal.empty. rewrite bool_decide_eq_true_2 by done.
  simpl. by destruct (internal.flag info).
Qed.

Lemma IsAllowlisted_empty_policy_witness :
  let info := internal.mkAllowlistInfo ∅ internal.kAllowAllWhenEmpty in
  let p' := mkProcess (Some (registry example_world)) (registry_attempts example_world) in
  LoadAllowlists example_world initial_process = Ret (registry example_world) p'
  ∧ registry example_world !! "test_allowlist_empty_allow_all" = Some info
  ∧ internal.allowlist info = ∅
  ∧ IsAllowlisted example_world "test_allowlist_empty_allow_all" "anything"
      initial_process = Ret true p'.
Proof.
  intros info p'.
  assert (H1 : LoadAllowlists example_world initial_process
               = Ret (registry example_world) p') by reflexivity.
  assert (H2 : registry example_world !! "test_allowlist_empty_allow_all" = Some info)
    by reflexivity.
  assert (H3 : internal.allowlist info = ∅) by reflexivity.
  split_and!; [exact H1 | exact H2 | exact H3 |].
  exact (IsAllowlisted_empty_policy example_world initial_process p'
           (registry example_world) "test_allowlist_empty_allow_all" "anything"
           info H1 H2 H3).
Defined.

(** C3. When the name is not a key of the registry, [IsAllowlisted] ends the
    process in the failed [ABSL_CHECK] and returns no boolean; when it is a
    key, the call returns a boolean, so neither fatal end is reached. *)
Theorem IsAllowlisted_unregistered_fatal (w : World) (p p' : process)
    (m : AllowlistMap) (n f : string) :
  LoadAllowlists w p = Ret m p' →
  (m !! n = None → IsAllowlisted w n f p = Fatal CheckFailed)
  ∧ (is_Some (m !! n) → ∃ b, IsAllowlisted w n f p = Ret b p').
Proof.
  intros Hload. rewrite IsAllowlisted_eq, Hload. split.
  - by intros ->.
  - intros [info ->]. eauto.
Qed.

Lemma IsAllowlisted_unregistered_fatal_witness :
  let p' := mkProcess (Some (registry example_world)) (registry_attempts example_world) in
  LoadAllowlists example_world initial_process = Ret (registry example_world) p'
  ∧ registry example_world !! "no_such_allowlist" = None
  ∧ IsAllowlisted example_world "no_such_allowlist" "a/b.c" initial_process
    = Fatal CheckFailed
  ∧ is_Some (registry example_world !! "test_allowlist")
  ∧ ∃ b, IsAllowlisted example_world "test_allowlist" "a/b.c" initial_process
         = Ret b p'.
Proof.
  intros p'.
  assert (H1 : LoadAllowlists example_world initial_process
               = Ret (registry example_world) p') by reflexivity.
  assert (H2 : registry example_world !! "no_such_allowlist" = None) by reflexivity.
  assert (H3 : is_Some (registry example_world !! "test_allowlist"))
    by (eexists; reflexivity).
  split_and!; [exact H1 | exact H2 | | exact H3 |].
  - exact (proj1 (IsAllowlisted_unregistered_fatal example_world initial_process p'
                    (registry example_world) "no_such_allowlist" "a/b.c" H1) H2).
  - exact (proj2 (IsAllowlisted_unregistered_fatal example_world initial_process p'
                    (registry example_world) "test_allowlist" "a/b.c" H1) H3).
Defined.

(** C9. The registry, whenever a reachable process loads it, has exactly the
    four keys [weak_imports], [test_allowlist_empty_allow_all],
    [test_allowlist_empty_allow_none] and [test_allowlist]; the flag of
    [test_allowlist_empty_allow_all] is [kAllowAllWhenEmpty] and the flag of
    each of the other three is [kNone]. *)
Theorem registry_names_and_flags (w : World) (p : process) :
  reachable p →
  ∃ m p',
    LoadAllowlists w p = Ret m p'
    ∧ dom m = {[ "weak_imports"; "test_allowlist_empty_allow_all";
                 "test_allowlist_empty_allow_none"; "test_allowlist" ]}
    ∧ internal.flag <$> m !! "weak_imports" = Some internal.kNone
    ∧ internal.flag <$> m !! "test_allowlist_empty_allow_all"
      = Some internal.kAllowAllWhenEmpty
    ∧ internal.flag <$> m !! "test_allowlist_empty_allow_none" = Some internal.kNone
    ∧ internal.flag <$> m !! "test_allowlist" = Some internal.kNone.
Proof.
  intros Hr.
  destruct (LoadAllowlists_returns w p) as (m & p' & Hload & Hp').
  exists m, p'. split; [exact Hload|].
  assert (∃ w0, m = registry w0) as [w0 ->].
  { apply LoadAllowlists_static in Hload as [_ [Hp | [_ ->]]]; [|by eauto].
    by apply (reachable_static p). }
  split; [apply registry_dom|].
  rewrite registry_inserts.
  rewrite !lookup_insert_eq.
  do 3 (rewrite lookup_insert_ne by done; rewrite ?lookup_insert_eq).
  rewrite !(lookup_insert_ne _ "test_allowlist") by done.
  rewrite lookup_insert_eq.
  rewrite !(lookup_insert_ne _ "test_allowlist_empty_allow_none") by done.
  by rewrite lookup_insert_eq.
Qed.

Lemma registry_names_and_flags_witness :
  reachable initial_process
  ∧ ∃ m p',
      LoadAllowlists example_world initial_process = Ret m p'
      ∧ dom m = {[ "weak_imports"; "test_allowlist_empty_allow_all";
                   "test_allowlist_empty_allow_none"; "test_allowlist" ]}
      ∧ internal.flag <$> m !! "weak_imports" = Some internal.kNone
      ∧ internal.flag <$> m !! "test_allowlist_empty_allow_all"
        = Some internal.kAllowAllWhenEmpty
      ∧ internal.flag <$> m !! "test_allowlist_empty_allow_none" = Some internal.kNone
      ∧ internal.flag <$> m !! "test_allowlist" = Some internal.kNone.
Proof.
  split; [exact reachable_initial|].
  exact (registry_names_and_flags example_world initial_process reachable_initial).
Defined.

(** ** The loader *)

Section FreshQuery.

(** A query on a process whose static is not initialised yet answers from
    the map built in the environment of the call. *)
Lemma IsAllowlisted_fresh (w : World) (n f : string) (p : process)
    (info : internal.AllowlistInfo) :
  static_map p = None →
  registry w !! n = Some info →
  IsAllowlisted w n f p
  = Ret (answer info f)
        (mkProcess (Some (registry w)) (opened p ++ registry_attempts w)).
Proof.
  intros Hp Hn. by rewrite IsAllowlisted_eq, LoadAllowlists_eq, Hp, Hn.
Qed.

Lemma entries_of_spec (w : World) (path s l : string) :
  backing_file w path = Some s →
  l ∈ entries_of w path ↔ line_of s l ∧ StartsWith l "//" = false.
Proof.
  intros Hs. unfold entries_of. rewrite Hs, while_getline_spec. simpl.
  rewrite elem_of_empty. unfold good. simpl. tauto.
Qed.

Lemma entries_of_no_comment (w : World) (path l : string) :
  l ∈ entries_of w path → StartsWith l "//" = false.
Proof.
  unfold entries_of. destruct (backing_file w path) as [s|].
  - rewrite while_getline_spec, elem_of_empty. tauto.
  - by rewrite elem_of_empty.
Qed.

End FreshQuery.

(** C6. [GetContents] constructs its stream on the primary location first
    and on the bare relative path only when the first could not be opened;
    it reads the first of the two that opens, and returns the empty set when
    neither opens.  That is no error: the list is registered without
    entries, and a query of it returns by the flag. *)
Theorem GetContents_candidates (w : World) (path : string) (p : process) :
  let primary := GetRunfilesDir w +:+ "/google3/" +:+ path in
  (∃ c p',
     GetContents w path p = Ret c p'
     ∧ static_map p' = static_map p
     ∧ match file_contents w primary, file_contents w path with
       | Some s, _ =>
           opened p' = opened p ++ [primary]
           ∧ c = while_getline (mkIfstream s false false) ∅
       | None, Some s =>
           opened p' = opened p ++ [primary; path]
           ∧ c = while_getline (mkIfstream s false false) ∅
       | None, None =>
           opened p' = opened p ++ [primary; path] ∧ c = ∅
       end)
  ∧ ∀ (n f : string) (info : internal.AllowlistInfo),
      path = kAllowlistPathPrefix +:+ n +:+ ".txt" →
      static_map p = None →
      registry w !! n = Some info →
      file_contents w primary = None →
      file_contents w path = None →
      internal.allowlist info = ∅
      ∧ ∃ p', IsAllowlisted w n f p
              = Ret (bool_decide (internal.flag info = internal.kAllowAllWhenEmpty)) p'.
Proof.
  intros primary. split.
  - rewrite GetContents_eq. eexists _, _. split; [reflexivity|].
    split; [reflexivity|]. simpl.
    unfold entries_of, backing_file, attempts, full_path_of. fold primary.
    destruct (file_contents w primary) as [s|]; [done|].
    by destruct (file_contents w path) as [s|].
  - intros n f info -> Hp Hn H1 H2.
    assert (He : internal.allowlist info = ∅).
    { rewrite (registry_lookup _ _ _ Hn).
      unfold entries_of, backing_file, full_path_of, local_path_of.
      fold primary. by rewrite H1, H2. }
    split; [exact He|]. eexists.
    rewrite (IsAllowlisted_fresh _ _ _ _ _ Hp Hn). f_equal.
    unfold answer, internal.empty. by rewrite bool_decide_eq_true_2.
Qed.

Lemma GetContents_candidates_witness :
  let path := "third_party/protobuf/compiler/allowlists/weak_imports.txt" in
  let primary := "/runfiles/google3/third_party/protobuf/compiler/allowlists/weak_imports.txt" in
  let info := internal.mkAllowlistInfo ∅ internal.kNone in
  path = kAllowlistPathPrefix +:+ "weak_imports" +:+ ".txt"
  ∧ static_map initial_process = None
  ∧ registry example_world !! "weak_imports" = Some info
  ∧ file_contents example_world primary = None
  ∧ file_contents example_world path = None
  ∧ internal.allowlist info = ∅
  ∧ ∃ p', IsAllowlisted example_world "weak_imports" "a/b.c" initial_process
          = Ret (bool_decide (internal.flag info = internal.kAllowAllWhenEmpty)) p'.
Proof.
  intros path primary info.
  assert (H0 : path = kAllowlistPathPrefix +:+ "weak_imports" +:+ ".txt") by reflexivity.
  assert (H1 : static_map initial_process = None) by reflexivity.
  assert (H2 : registry example_world !! "weak_imports" = Some info) by reflexivity.
  assert (H3 : file_contents example_world primary = None) by reflexivity.
  assert (H4 : file_contents example_world path = None) by reflexivity.
  split_and!; [exact H0 | exact H1 | exact H2 | exact H3 | exact H4 |..];
    apply (proj2 (GetContents_candidates example_world path initial_process)
             "weak_imports" "a/b.c" info H0 H1 H2 H3 H4).
Defined.

(** C8. [LoadAllowlist] reads the list of a name from the relative path made
    of the fixed prefix directory, the name and the suffix [.txt]; the first
    location tried is the runtime-files root, then [/google3/], then that
    relative path, and the only other location tried is the relative path
    itself. *)
Theorem LoadAllowlist_paths (w : World) (name : string) (map : AllowlistMap)
    (flag : internal.AllowlistFlags) (p : process) :
  let relative := "third_party/protobuf/compiler/allowlists/" +:+ name +:+ ".txt" in
  let primary := GetRunfilesDir w +:+ "/google3/" +:+ relative in
  ∃ map' p',
    LoadAllowlist w name map flag p = Ret map' p'
    ∧ opened p'
      = opened p ++ primary :: (if file_contents w primary is Some _ then []
                                else [relative])
    ∧ ∃ contents p'',
        GetContents w relative p = Ret contents p''
        ∧ map' = emplace name (internal.mkAllowlistInfo contents flag) map.
Proof.
  intros relative primary. rewrite LoadAllowlist_eq, GetContents_eq.
  eexists _, _. split; [reflexivity|]. simpl. split.
  - unfold attempts, full_path_of, local_path_of, kAllowlistPathPrefix.
    fold relative. fold primary. by destruct (file_contents w primary).
  - eexists _, _. split; reflexivity.
Qed.

(** ** Lines and entries *)

(** C5. Every line of the backing file that does not start with [//], the
    empty line included, is an element of the set [GetContents] returns, as
    it stands; and every element of that set is such a line of the file,
    character for character. *)
Theorem GetContents_keeps_lines (w : World) (path s : string) (p : process) :
  backing_file w path = Some s →
  ∃ c p',
    GetContents w path p = Ret c p'
    ∧ (∀ l, line_of s l → StartsWith l "//" = false → l ∈ c)
    ∧ (line_of s EmptyString → EmptyString ∈ c)
    ∧ (∀ l, l ∈ c → line_of s l).
Proof.
  intros Hs. rewrite GetContents_eq. eexists _, _. split; [reflexivity|].
  split_and!.
  - intros l Hl Hc. by apply (entries_of_spec _ _ _ _ Hs).
  - intros Hl. by apply (entries_of_spec _ _ _ _ Hs).
  - intros l Hl. by apply (entries_of_spec _ _ _ _ Hs) in Hl as [? _].
Qed.

Lemma GetContents_keeps_lines_witness :
  let path := "third_party/protobuf/compiler/allowlists/test_allowlist.txt" in
  let s := "// comment" +:+ nl +:+ "a/b.c" +:+ nl +:+ "d/e.c" in
  backing_file example_world path = Some s
  ∧ ∃ c p',
      GetContents example_world path initial_process = Ret c p'
      ∧ (∀ l, line_of s l → StartsWith l "//" = false → l ∈ c)
      ∧ (line_of s EmptyString → EmptyString ∈ c)
      ∧ (∀ l, l ∈ c → line_of s l).
Proof.
  intros path s.
  assert (H1 : backing_file example_world path = Some s) by reflexivity.
  split; [exact H1|].
  exact (GetContents_keeps_lines example_world path s initial_process H1).
Defined.

Section Deletion.

Lemma whole_lines_snoc_nl (s : string) : whole_lines (s +:+ nl).
Proof.
  induction s as [|c s IH].
  - apply (whole_lines_cons EmptyString EmptyString); [done | constructor].
  - rewrite append_cons. destruct (Ascii.eqb c newline) eqn:Hc.
    + apply Ascii.eqb_eq in Hc as ->.
      by apply (whole_lines_cons EmptyString (s +:+ nl)).
    + inversion IH as [Hnil | l0 r Hl0 Hr Heq].
      * symmetry in Hnil. by apply append_eq_nil in Hnil as [_ ?].
      * change (String c (l0 +:+ String newline r))
          with (String c l0 +:+ String newline r).
        apply whole_lines_cons; [|done]. simpl. by rewrite Hc, Hl0.
Qed.

Lemma line_start_whole_lines (pre : string) :
  pre = EmptyString ∨ (∃ pre', pre = pre' +:+ nl) → whole_lines pre.
Proof.
  intros [-> | [pre' ->]]; [constructor | apply whole_lines_snoc_nl].
Qed.

(** After whole lines, the lines of a text are those of its two parts. *)
Lemma line_of_app (pre t x : string) :
  whole_lines pre →
  line_of (pre +:+ t) x ↔ line_of pre x ∨ line_of t x.
Proof.
  induction 1 as [|l0 r Hl0 Hr IH].
  - rewrite append_nil_l. pose proof (line_of_nil x). tauto.
  - rewrite append_assoc, append_cons.
    rewrite !(line_of_cons l0) by done. tauto.
Qed.

(** Two texts with the same lines outside comments load to the same set. *)
Lemma while_getline_same_lines (s1 s2 : string) :
  (∀ l, StartsWith l "//" = false → line_of s1 l ↔ line_of s2 l) →
  while_getline (mkIfstream s1 false false) ∅
  = while_getline (mkIfstream s2 false false) ∅.
Proof.
  intros Hsame. apply set_eq. intros l.
  rewrite !while_getline_spec. simpl. specialize (Hsame l). tauto.
Qed.

(** Taking a comment line out of a text does not change what is loaded. *)
Lemma while_getline_delete_comment (pre f post : string) :
  StartsWith f "//" = true → has_newline f = false → whole_lines pre →
  while_getline (mkIfstream (pre +:+ f +:+ nl +:+ post) false false) ∅
  = while_getline (mkIfstream (pre +:+ post) false false) ∅.
Proof.
  intros Hc Hf Hpre. apply while_getline_same_lines. intros l Hl.
  rewrite (line_of_app pre post), (line_of_app pre (f +:+ nl +:+ post)) by done.
  unfold nl. rewrite append_cons, append_nil_l.
  rewrite (line_of_cons f) by done.
  assert (l ≠ f) by congruence. tauto.
Qed.

End Deletion.

(** C4. A string that starts with [//] is never an element of the set
    [GetContents] returns, whatever the file holds.  A query for such a
    string therefore never finds it among the entries: it returns true only
    by the policy of an empty list.  And taking a line that starts with [//]
    out of the backing file leaves the loaded set as it was. *)
Theorem comment_lines_excluded (f : string) :
  StartsWith f "//" = true →
  (∀ w path p, ∃ c p', GetContents w path p = Ret c p' ∧ f ∉ c)
  ∧ (∀ w n p p' b,
       reachable p →
       IsAllowlisted w n f p = Ret b p' →
       ∃ m info,
         LoadAllowlists w p = Ret m p'
         ∧ m !! n = Some info
         ∧ (f ∉ internal.allowlist info)
         ∧ (b = true ↔ (internal.allowlist info = ∅
                         ∧ internal.flag info = internal.kAllowAllWhenEmpty)))
  ∧ (∀ w1 w2 path pre post p,
       has_newline f = false →
       pre = EmptyString ∨ (∃ pre', pre = pre' +:+ nl) →
       backing_file w1 path = Some (pre +:+ f +:+ nl +:+ post) →
       backing_file w2 path = Some (pre +:+ post) →
       ∃ c p1 p2,
         GetContents w1 path p = Ret c p1 ∧ GetContents w2 path p = Ret c p2).
Proof.
  intros Hc. split_and!.
  - intros w path p. rewrite GetContents_eq. eexists _, _.
    split; [reflexivity|]. intros Hin.
    apply entries_of_no_comment in Hin. congruence.
  - intros w n p p' b Hr Hcall.
    apply IsAllowlisted_Ret in Hcall as (m & info & Hload & Hn & ->).
    exists m, info. split; [done|]. split; [done|].
    assert (Hnot : f ∉ internal.allowlist info).
    { destruct (reachable_entries _ _ _ _ _ _ Hr Hload Hn) as [w0 ->].
      intros Hin. apply entries_of_no_comment in Hin. congruence. }
    split; [exact Hnot|].
    unfold answer, internal.empty, internal.IsAllowlisted.
    case_bool_decide as He; simpl.
    + rewrite bool_decide_eq_true. tauto.
    + rewrite bool_decide_eq_true. tauto.
  - intros w1 w2 path pre post p Hf Hpre H1 H2.
    rewrite !GetContents_eq. eexists _, _, _. split; [reflexivity|].
    f_equal. unfold entries_of. rewrite H1, H2. symmetry.
    apply while_getline_delete_comment; [done..|].
    by apply line_start_whole_lines.
Qed.

Lemma comment_lines_excluded_witness :
  let f := "// comment" in
  let path := "third_party/protobuf/compiler/allowlists/test_allowlist.txt" in
  let p' := mkProcess (Some (registry example_world)) (registry_attempts example_world) in
  StartsWith f "//" = true
  ∧ (∃ c q, GetContents example_world path initial_process = Ret c q ∧ f ∉ c)
  ∧ (∃ m info,
       LoadAllowlists example_world initial_process = Ret m p'
       ∧ m !! "test_allowlist_empty_allow_all" = Some info
       ∧ (f ∉ internal.allowlist info)
       ∧ (true = true ↔ (internal.allowlist info = ∅
                          ∧ internal.flag info = internal.kAllowAllWhenEmpty)))
  ∧ (∃ c p1 p2,
       GetContents example_world path initial_process = Ret c p1
       ∧ GetContents uncommented_world path initial_process = Ret c p2).
Proof.
  intros f path p'.
  assert (H0 : StartsWith f "//" = true) by reflexivity.
  destruct (comment_lines_excluded f H0) as (Ha & Hb & Hc).
  split_and!.
  - exact H0.
  - exact (Ha example_world path initial_process).
  - exact (Hb example_world "test_allowlist_empty_allow_all" initial_process p'
             true reachable_initial eq_refl).
  - exact (Hc example_world uncommented_world path EmptyString
             ("a/b.c" +:+ nl +:+ "d/e.c") initial_process
             eq_refl (or_introl eq_refl) eq_refl eq_refl).
Defined.

(** C10. When the backing file ends in a line without a newline after it,
    that line is read like any other: it is an element of the loaded set
    unless it starts with [//], and a query for it in a list loaded from
    such a file returns true. *)
Theorem GetContents_unterminated_last_line (w : World) (path pre last : string)
    (p : process) :
  backing_file w path = Some (pre +:+ last) →
  pre = EmptyString ∨ (∃ pre', pre = pre' +:+ nl) →
  last ≠ EmptyString →
  has_newline last = false →
  (∃ c p', GetContents w path p = Ret c p'
           ∧ (last ∈ c ↔ StartsWith last "//" = false))
  ∧ ∀ n info,
      path = kAllowlistPathPrefix +:+ n +:+ ".txt" →
      static_map p = None →
      registry w !! n = Some info →
      StartsWith last "//" = false →
      ∃ p', IsAllowlisted w n last p = Ret true p'.
Proof.
  intros Hs Hpre Hne Hlast.
  assert (Hline : line_of (pre +:+ last) last).
  { exists pre, EmptyString. rewrite append_nil_r. split_and!; auto. }
  assert (Hin : last ∈ entries_of w path ↔ StartsWith last "//" = false).
  { rewrite (entries_of_spec _ _ _ _ Hs). tauto. }
  split.
  - rewrite GetContents_eq. eexists _, _. split; [reflexivity | exact Hin].
  - intros n info -> Hp Hn Hc. eexists.
    rewrite (IsAllowlisted_fresh _ _ _ _ _ Hp Hn). f_equal.
    apply Hin in Hc. fold (local_path_of n) in Hc.
    rewrite <- (registry_lookup _ _ _ Hn) in Hc.
    unfold answer, internal.empty, internal.IsAllowlisted.
    rewrite bool_decide_eq_false_2 by (intros He; rewrite He in Hc; set_solver).
    simpl. by apply bool_decide_eq_true_2.
Qed.

Lemma GetContents_unterminated_last_line_witness :
  let path := "third_party/protobuf/compiler/allowlists/test_allowlist.txt" in
  let pre := "// comment" +:+ nl +:+ "a/b.c" +:+ nl in
  let last := "d/e.c" in
  let info := internal.mkAllowlistInfo {[ "a/b.c"; "d/e.c" ]} internal.kNone in
  backing_file example_world path = Some (pre +:+ last)
  ∧ (pre = EmptyString ∨ (∃ pre', pre = pre' +:+ nl))
  ∧ last ≠ EmptyString
  ∧ has_newline last = false
  ∧ path = kAllowlistPathPrefix +:+ "test_allowlist" +:+ ".txt"
  ∧ static_map initial_process = None
  ∧ registry example_world !! "test_allowlist" = Some info
  ∧ StartsWith last "//" = false
  ∧ (∃ c p', GetContents example_world path initial_process = Ret c p'
             ∧ (last ∈ c ↔ StartsWith last "//" = false))
  ∧ ∃ p', IsAllowlisted example_world "test_allowlist" last initial_process
          = Ret true p'.
Proof.
  intros path pre last info.
  assert (H1 : backing_file example_world path = Some (pre +:+ last)) by reflexivity.
  assert (H2 : pre = EmptyString ∨ (∃ pre', pre = pre' +:+ nl)).
  { right. exists ("// comment" +:+ nl +:+ "a/b.c"). reflexivity. }
  assert (H3 : last ≠ EmptyString) by discriminate.
  assert (H4 : has_newline last = false) by reflexivity.
  assert (H5 : path = kAllowlistPathPrefix +:+ "test_allowlist" +:+ ".txt")
    by reflexivity.
  assert (H6 : static_map initial_process = None) by reflexivity.
  assert (H7 : registry example_world !! "test_allowlist" = Some info) by reflexivity.
  assert (H8 : StartsWith last "//" = false) by reflexivity.
  destruct (GetContents_unterminated_last_line example_world path pre last
              initial_process H1 H2 H3 H4) as [Ha Hb].
  split_and!; try done.
  exact (Hb "test_allowlist" info H5 H6 H7 H8).
Defined.

(** ** Repeated queries *)

Section Runs.

(** Queries on a process whose static is initialised leave it as it is. *)
Lemma run_initialised (qs : list query) (p p' : process) (m : AllowlistMap)
    (bs : list bool) :
  static_map p = Some m → run qs p = Ret bs p' → p' = p.
Proof.
  intros Hp. revert bs p'. induction qs as [|q qs IH]; intros bs p'.
  - by intros [= _ <-].
  - simpl. unfold mbind, M_bind.
    rewrite (IsAllowlisted_initialised _ _ _ _ _ Hp).
    destruct (m !! q_allowlist q) as [info|]; [|discriminate].
    destruct (run qs p) as [bs' p1|] eqn:Hrun; [|discriminate].
    intros [= _ <-]. by apply (IH bs').
Qed.

End Runs.

(** C7. Once a call of [IsAllowlisted] for a name and a file has returned,
    every later call for the same name and file in the same process returns
    the same boolean, whatever other queries were made in between and
    whatever has become of the files: each later call finds the registry
    that the earlier call left in the static. *)
Theorem IsAllowlisted_deterministic (w1 : World) (n f : string)
    (p0 p1 : process) (b : bool) :
  IsAllowlisted w1 n f p0 = Ret b p1 →
  ∃ m,
    LoadAllowlists w1 p0 = Ret m p1
    ∧ ∀ (qs : list query) (bs : list bool) (p2 : process) (w2 : World),
        run qs p1 = Ret bs p2 →
        LoadAllowlists w2 p2 = Ret m p2
        ∧ IsAllowlisted w2 n f p2 = Ret b p2.
Proof.
  intros Hcall.
  apply IsAllowlisted_Ret in Hcall as (m & info & Hload & Hn & ->).
  exists m. split; [exact Hload|].
  apply LoadAllowlists_static in Hload as [Hp1 _].
  intros qs bs p2 w2 Hrun.
  apply (run_initialised _ _ _ _ _ Hp1) in Hrun as ->.
  split; [by apply LoadAllowlists_initialised|].
  by rewrite (IsAllowlisted_initialised _ _ _ _ _ Hp1), Hn.
Qed.

Lemma IsAllowlisted_deterministic_witness :
  let p1 := mkProcess (Some (registry example_world)) (registry_attempts example_world) in
  let qs := [mkQuery uncommented_world "weak_imports" "x/y.c";
             mkQuery uncommented_world "test_allowlist" "// comment"] in
  IsAllowlisted example_world "test_allowlist" "a/b.c" initial_process = Ret true p1
  ∧ run qs p1 = Ret [false; false] p1
  ∧ LoadAllowlists uncommented_world p1 = Ret (registry example_world) p1
  ∧ IsAllowlisted uncommented_world "test_allowlist" "a/b.c" p1 = Ret true p1.
Proof.
  intros p1 qs.
  assert (H1 : IsAllowlisted example_world "test_allowlist" "a/b.c" initial_process
               = Ret true p1) by reflexivity.
  assert (H2 : run qs p1 = Ret [false; false] p1) by reflexivity.
  destruct (IsAllowlisted_deterministic example_world "test_allowlist" "a/b.c"
              initial_process p1 true H1) as (m & Hm & Hlater).
  assert (Hm' : LoadAllowlists example_world initial_process
                = Ret (registry example_world) p1) by reflexivity.
  rewrite Hm' in Hm. injection Hm as <-.
  split; [exact H1|]. split; [exact H2|].
  exact (Hlater qs [false; false] p1 uncommented_world H2).
Defined.

(** ** The queries of the example environment *)

Section Examples.

Let loaded : process :=
  mkProcess (Some (registry example_world)) (registry_attempts example_world).

Example example_entry :
  IsAllowlisted example_world "test_allowlist" "a/b.c" initial_process
  = Ret true loaded.
Proof. reflexivity. Qed.

Example example_comment :
  IsAllowlisted example_world "test_allowlist" "// comment" initial_process
  = Ret false loaded.
Proof. reflexivity. Qed.

Example example_other_file :
  IsAllowlisted example_world "test_allowlist" "x/y.c" initial_process
  = Ret false loaded.
Proof. reflexivity. Qed.

Example example_prefix_of_entry :
  IsAllowlisted example_world "test_allowlist" "a/b" initial_process
  = Ret false loaded.
Proof. reflexivity. Qed.

Example example_empty_allow_all :
  IsAllowlisted example_world "test_allowlist_empty_allow_all" "anything"
    initial_process
  = Ret true loaded.
Proof. reflexivity. Qed.

Example example_missing_file :
  IsAllowlisted example_world "test_allowlist_empty_allow_none" "anything"
    initial_process
  = Ret false loaded.
Proof. reflexivity. Qed.

Example example_blank_lines :
  elements (while_getline
              (mkIfstream ("a" +:+ nl +:+ nl +:+ " b " +:+ nl) false false) ∅)
  = ["a"; " b "; EmptyString].
Proof. reflexivity. Qed.

End Examples.

(** * Further properties of the loader and of the registry *)

(** ** [LoadAllowlist] and the map *)

(** X1. Loading a name that the map already holds changes nothing in the
    map: the entry registered first stays.  The file is read all the same. *)
Theorem LoadAllowlist_first_wins (w : World) (name : string) (map : AllowlistMap)
    (flag : internal.AllowlistFlags) (p : process) (info : internal.AllowlistInfo) :
  map !! name = Some info →
  ∃ p', LoadAllowlist w name map flag p = Ret map p'
        ∧ static_map p' = static_map p
        ∧ length (opened p) < length (opened p').
Proof.
  intros Hn. rewrite LoadAllowlist_eq. eexists. split_and!.
  - unfold emplace. by rewrite Hn.
  - reflexivity.
  - simpl. rewrite length_app. unfold attempts. simpl. lia.
Qed.

Lemma LoadAllowlist_first_wins_witness :
  let info := internal.mkAllowlistInfo {[ "kept" ]} internal.kAllowAllWhenEmpty in
  let map : AllowlistMap := {[ "test_allowlist" := info ]} in
  map !! "test_allowlist" = Some info
  ∧ ∃ p', LoadAllowlist example_world "test_allowlist" map internal.kNone
            initial_process = Ret map p'
          ∧ static_map p' = static_map initial_process
          ∧ length (opened initial_process) < length (opened p').
Proof.
  intros info map.
  assert (H1 : map !! "test_allowlist" = Some info) by reflexivity.
  split; [exact H1|].
  exact (LoadAllowlist_first_wins example_world "test_allowlist" map internal.kNone
           initial_process info H1).
Defined.

(** X2. Loading a name that the map does not hold yet registers, under that
    name, the set [GetContents] returns for the file of the name together
    with the flag passed; every other key keeps its entry, and the keys of
    the map grow by the name alone. *)
Theorem LoadAllowlist_registers (w : World) (name : string) (map : AllowlistMap)
    (flag : internal.AllowlistFlags) (p : process) :
  map !! name = None →
  ∃ map' p' contents,
    LoadAllowlist w name map flag p = Ret map' p'
    ∧ GetContents w (kAllowlistPathPrefix +:+ name +:+ ".txt") p = Ret contents p'
    ∧ map' !! name = Some (internal.mkAllowlistInfo contents flag)
    ∧ (∀ other, other ≠ name → map' !! other = map !! other)
    ∧ dom map' = {[ name ]} ∪ dom map.
Proof.
  intros Hn. rewrite LoadAllowlist_eq, GetContents_eq.
  eexists _, _, _. split; [reflexivity|]. split; [reflexivity|].
  unfold emplace. rewrite Hn. split_and!.
  - by rewrite lookup_insert_eq.
  - intros other Hne. by rewrite lookup_insert_ne.
  - by rewrite dom_insert_L.
Qed.

Lemma LoadAllowlist_registers_witness :
  let map : AllowlistMap := {[ "weak_imports" := internal.mkAllowlistInfo ∅ internal.kNone ]} in
  map !! "test_allowlist" = None
  ∧ ∃ map' p' contents,
      LoadAllowlist example_world "test_allowlist" map internal.kNone initial_process
      = Ret map' p'
      ∧ GetContents example_world
          (kAllowlistPathPrefix +:+ "test_allowlist" +:+ ".txt") initial_process
        = Ret contents p'
      ∧ map' !! "test_allowlist"
        = Some (internal.mkAllowlistInfo contents internal.kNone)
      ∧ (∀ other, other ≠ "test_allowlist" → map' !! other = map !! other)
      ∧ dom map' = {[ "test_allowlist" ]} ∪ dom map.
Proof.
  intros map.
  assert (H1 : map !! "test_allowlist" = None) by reflexivity.
  split; [exact H1|].
  exact (LoadAllowlist_registers example_world "test_allowlist" map internal.kNone
           initial_process H1).
Defined.

(** ** What [GetContents] makes of a file *)

Section FileShapes.

Lemma fresh_entries (s l : string) :
  l ∈ while_getline (mkIfstream s false false) ∅
  ↔ line_of s l ∧ StartsWith l "//" = false.
Proof. rewrite while_getline_spec, elem_of_empty. unfold good. simpl. tauto. Qed.

Lemma line_of_no_newline (s l : string) : line_of s l → has_newline l = false.
Proof. by intros (pre & post & _ & _ & Hl & _). Qed.

Lemma line_of_nl (l : string) : line_of nl l ↔ l = EmptyString.
Proof.
  change nl with (EmptyString +:+ String newline EmptyString).
  rewrite (line_of_cons EmptyString) by done.
  pose proof (line_of_nil l). tauto.
Qed.

Lemma line_of_terminated (a l : string) :
  has_newline a = false → line_of (a +:+ nl) l ↔ l = a.
Proof.
  intros Ha. unfold nl. rewrite (line_of_cons a) by done.
  pose proof (line_of_nil l). tauto.
Qed.

End FileShapes.

(** X3. The set [GetContents] returns is empty exactly when neither
    candidate file can be opened or every line of the file read starts with
    [//]; an empty file is such a file. *)
Theorem GetContents_empty_iff (w : World) (path : string) (p : process) :
  ∃ c p',
    GetContents w path p = Ret c p'
    ∧ (c = ∅ ↔ match backing_file w path with
               | Some s => ∀ l, line_of s l → StartsWith l "//" = true
               | None => True
               end).
Proof.
  rewrite GetContents_eq. eexists _, _. split; [reflexivity|].
  unfold entries_of. destruct (backing_file w path) as [s|]; [|done].
  split.
  - intros He l Hl. destruct (StartsWith l "//") eqn:Hc; [done|].
    assert (Hin : l ∈ while_getline (mkIfstream s false false) ∅)
      by (by apply fresh_entries).
    rewrite He in Hin. by apply elem_of_empty in Hin.
  - intros Hall. apply set_eq. intros l. rewrite fresh_entries, elem_of_empty.
    split; [|done]. intros [Hl Hc]. specialize (Hall l Hl). congruence.
Qed.

(** X4. No element of the set [GetContents] returns holds a newline
    character: a query for a string with a newline in it is answered true
    only by the policy of an empty list. *)
Theorem entries_hold_no_newline (f : string) :
  has_newline f = true →
  (∀ w path p, ∃ c p', GetContents w path p = Ret c p' ∧ f ∉ c)
  ∧ ∀ w n p p' b,
      reachable p →
      IsAllowlisted w n f p = Ret b p' →
      ∃ m info,
        LoadAllowlists w p = Ret m p'
        ∧ m !! n = Some info
        ∧ (b = true ↔ (internal.allowlist info = ∅
                        ∧ internal.flag info = internal.kAllowAllWhenEmpty)).
Proof.
  intros Hf.
  assert (Hnot : ∀ w path, f ∉ entries_of w path).
  { intros w path Hin. unfold entries_of in Hin.
    destruct (backing_file w path) as [s|]; [|by apply elem_of_empty in Hin].
    apply fresh_entries in Hin as [Hl _].
    apply line_of_no_newline in Hl. congruence. }
  split.
  - intros w path p. rewrite GetContents_eq. eexists _, _.
    split; [reflexivity | apply Hnot].
  - intros w n p p' b Hr Hcall.
    apply IsAllowlisted_Ret in Hcall as (m & info & Hload & Hn & ->).
    exists m, info. split; [done|]. split; [done|].
    destruct (reachable_entries _ _ _ _ _ _ Hr Hload Hn) as [w0 Hw0].
    assert (Hnin : f ∉ internal.allowlist info) by (rewrite Hw0; apply Hnot).
    unfold answer, internal.empty, internal.IsAllowlisted.
    case_bool_decide as He; simpl; rewrite bool_decide_eq_true; tauto.
Qed.

Lemma entries_hold_no_newline_witness :
  let f := "a/b.c" +:+ nl +:+ "d/e.c" in
  let path := "third_party/protobuf/compiler/allowlists/test_allowlist.txt" in
  let p' := mkProcess (Some (registry example_world)) (registry_attempts example_world) in
  has_newline f = true
  ∧ (∃ c q, GetContents example_world path initial_process = Ret c q ∧ f ∉ c)
  ∧ ∃ m info,
      LoadAllowlists example_world initial_process = Ret m p'
      ∧ m !! "test_allowlist" = Some info
      ∧ (false = true ↔ (internal.allowlist info = ∅
                          ∧ internal.flag info = internal.kAllowAllWhenEmpty)).
Proof.
  intros f path p'.
  assert (H0 : has_newline f = true) by reflexivity.
  destruct (entries_hold_no_newline f H0) as [Ha Hb].
  split; [exact H0|]. split; [exact (Ha example_world path initial_process)|].
  exact (Hb example_world "test_allowlist" initial_process p' false
           reachable_initial eq_refl).
Defined.

(** X5. A newline after the last line changes nothing: a file that ends in
    a line without newline and the same file with a newline added at its
    end load to the same set. *)
Theorem GetContents_final_newline_optional (w1 w2 : World)
    (path pre last : string) (p : process) :
  pre = EmptyString ∨ (∃ pre', pre = pre' +:+ nl) →
  last ≠ EmptyString →
  has_newline last = false →
  backing_file w1 path = Some (pre +:+ last) →
  backing_file w2 path = Some (pre +:+ last +:+ nl) →
  ∃ c p1 p2,
    GetContents w1 path p = Ret c p1 ∧ GetContents w2 path p = Ret c p2.
Proof.
  intros Hpre Hne Hlast H1 H2. apply line_start_whole_lines in Hpre.
  rewrite !GetContents_eq. eexists _, _, _. split; [reflexivity|].
  f_equal. unfold entries_of. rewrite H1, H2.
  apply while_getline_same_lines. intros l _.
  rewrite (line_of_app pre last), (line_of_app pre (last +:+ nl)) by done.
  rewrite (line_of_last last), (line_of_terminated last) by done. tauto.
Qed.

Lemma GetContents_final_newline_optional_witness :
  let path := "third_party/protobuf/compiler/allowlists/test_allowlist.txt" in
  let pre := "// comment" +:+ nl +:+ "a/b.c" +:+ nl in
  let last := "d/e.c" in
  let w2 := single_file_world path (pre +:+ last +:+ nl) in
  (pre = EmptyString ∨ (∃ pre', pre = pre' +:+ nl))
  ∧ last ≠ EmptyString
  ∧ has_newline last = false
  ∧ backing_file example_world path = Some (pre +:+ last)
  ∧ backing_file w2 path = Some (pre +:+ last +:+ nl)
  ∧ ∃ c p1 p2,
      GetContents example_world path initial_process = Ret c p1
      ∧ GetContents w2 path initial_process = Ret c p2.
Proof.
  intros path pre last w2.
  assert (H1 : pre = EmptyString ∨ (∃ pre', pre = pre' +:+ nl)).
  { right. exists ("// comment" +:+ nl +:+ "a/b.c"). reflexivity. }
  assert (H2 : last ≠ EmptyString) by discriminate.
  assert (H3 : has_newline last = false) by reflexivity.
  assert (H4 : backing_file example_world path = Some (pre +:+ last)) by reflexivity.
  assert (H5 : backing_file w2 path = Some (pre +:+ last +:+ nl)) by reflexivity.
  split_and!; [exact H1 | exact H2 | exact H3 | exact H4 | exact H5 |].
  exact (GetContents_final_newline_optional example_world w2 path pre last
           initial_process H1 H2 H3 H4 H5).
Defined.

(** X6. An empty line is an entry: when a file whose lines all end in a
    newline gets one more newline at its end, the loaded set gains the empty
    string and nothing else.  In particular a file that holds a single
    newline loads to a set that is not empty. *)
Theorem GetContents_blank_line_is_entry (w1 w2 : World) (path s : string)
    (p : process) :
  s = EmptyString ∨ (∃ s', s = s' +:+ nl) →
  backing_file w1 path = Some s →
  backing_file w2 path = Some (s +:+ nl) →
  ∃ c1 c2 p1 p2,
    GetContents w1 path p = Ret c1 p1
    ∧ GetContents w2 path p = Ret c2 p2
    ∧ c2 = {[ EmptyString ]} ∪ c1
    ∧ c2 ≠ ∅.
Proof.
  intros Hs H1 H2. apply line_start_whole_lines in Hs.
  rewrite !GetContents_eq. eexists _, _, _, _.
  split; [reflexivity|]. split; [reflexivity|].
  unfold entries_of. rewrite H1, H2.
  assert (Heq : while_getline (mkIfstream (s +:+ nl) false false) ∅
                = {[ EmptyString ]} ∪ while_getline (mkIfstream s false false) ∅).
  { apply set_eq. intros l.
    rewrite elem_of_union, elem_of_singleton, !fresh_entries.
    rewrite (line_of_app s nl) by done. rewrite line_of_nl.
    split; [|intros [-> | ?]; [split; [by right | done] | tauto]].
    intros [[Hl | ->] Hc]; [by right | by left]. }
  split; [exact Heq|]. rewrite Heq. intros He.
  assert (Hin : EmptyString ∈ ({[ EmptyString ]}
                  ∪ while_getline (mkIfstream s false false) ∅ : gset string)).
  { apply elem_of_union. left. by apply elem_of_singleton. }
  rewrite He in Hin. by apply elem_of_empty in Hin.
Qed.

Lemma GetContents_blank_line_is_entry_witness :
  let path := "third_party/protobuf/compiler/allowlists/test_allowlist_empty_allow_all.txt" in
  let w1 := single_file_world path EmptyString in
  let w2 := single_file_world path (EmptyString +:+ nl) in
  (EmptyString = EmptyString ∨ (∃ s', EmptyString = s' +:+ nl))
  ∧ backing_file w1 path = Some EmptyString
  ∧ backing_file w2 path = Some (EmptyString +:+ nl)
  ∧ ∃ c1 c2 p1 p2,
      GetContents w1 path initial_process = Ret c1 p1
      ∧ GetContents w2 path initial_process = Ret c2 p2
      ∧ c2 = {[ EmptyString ]} ∪ c1
      ∧ c2 ≠ ∅.
Proof.
  intros path w1 w2.
  assert (H1 : EmptyString = EmptyString ∨ (∃ s', EmptyString = s' +:+ nl))
    by (left; reflexivity).
  assert (H2 : backing_file w1 path = Some EmptyString) by reflexivity.
  assert (H3 : backing_file w2 path = Some (EmptyString +:+ nl)) by reflexivity.
  split_and!; [exact H1 | exact H2 | exact H3 |].
  exact (GetContents_blank_line_is_entry w1 w2 path EmptyString initial_process
           H1 H2 H3).
Defined.

(** X7. The order of the lines of a file does not matter: exchanging two
    neighbouring blocks of lines leaves the loaded set as it was. *)
Theorem GetContents_order_irrelevant (w1 w2 : World) (path pre a b post : string)
    (p : process) :
  pre = EmptyString ∨ (∃ pre', pre = pre' +:+ nl) →
  backing_file w1 path = Some (pre +:+ (a +:+ nl) +:+ (b +:+ nl) +:+ post) →
  backing_file w2 path = Some (pre +:+ (b +:+ nl) +:+ (a +:+ nl) +:+ post) →
  ∃ c p1 p2,
    GetContents w1 path p = Ret c p1 ∧ GetContents w2 path p = Ret c p2.
Proof.
  intros Hpre H1 H2. apply line_start_whole_lines in Hpre.
  pose proof (whole_lines_snoc_nl a) as Ha.
  pose proof (whole_lines_snoc_nl b) as Hb.
  rewrite !GetContents_eq. eexists _, _, _. split; [reflexivity|].
  f_equal. unfold entries_of. rewrite H1, H2.
  apply while_getline_same_lines. intros l _.
  rewrite (line_of_app pre ((a +:+ nl) +:+ (b +:+ nl) +:+ post)),
    (line_of_app (a +:+ nl) ((b +:+ nl) +:+ post)),
    (line_of_app (b +:+ nl) post) by done.
  rewrite (line_of_app pre ((b +:+ nl) +:+ (a +:+ nl) +:+ post)),
    (line_of_app (b +:+ nl) ((a +:+ nl) +:+ post)),
    (line_of_app (a +:+ nl) post) by done.
  tauto.
Qed.

Lemma GetContents_order_irrelevant_witness :
  let path := "third_party/protobuf/compiler/allowlists/test_allowlist.txt" in
  let pre := "// comment" +:+ nl in
  let w2 := single_file_world path
              (pre +:+ ("d/e.c" +:+ nl) +:+ ("a/b.c" +:+ nl) +:+ EmptyString) in
  let w1 := single_file_world path
              (pre +:+ ("a/b.c" +:+ nl) +:+ ("d/e.c" +:+ nl) +:+ EmptyString) in
  (pre = EmptyString ∨ (∃ pre', pre = pre' +:+ nl))
  ∧ backing_file w1 path
    = Some (pre +:+ ("a/b.c" +:+ nl) +:+ ("d/e.c" +:+ nl) +:+ EmptyString)
  ∧ backing_file w2 path
    = Some (pre +:+ ("d/e.c" +:+ nl) +:+ ("a/b.c" +:+ nl) +:+ EmptyString)
  ∧ ∃ c p1 p2,
      GetContents w1 path initial_process = Ret c p1
      ∧ GetContents w2 path initial_process = Ret c p2.
Proof.
  intros path pre w2 w1.
  assert (H1 : pre = EmptyString ∨ (∃ pre', pre = pre' +:+ nl))
    by (right; exists "// comment"; reflexivity).
  assert (H2 : backing_file w1 path
               = Some (pre +:+ ("a/b.c" +:+ nl) +:+ ("d/e.c" +:+ nl) +:+ EmptyString))
    by reflexivity.
  assert (H3 : backing_file w2 path
               = Some (pre +:+ ("d/e.c" +:+ nl) +:+ ("a/b.c" +:+ nl) +:+ EmptyString))
    by reflexivity.
  split_and!; [exact H1 | exact H2 | exact H3 |].
  exact (GetContents_order_irrelevant w1 w2 path pre "a/b.c" "d/e.c" EmptyString
           initial_process H1 H2 H3).
Defined.

(** X8. Repeating lines does not matter: a file in which a block of lines
    occurs twice in a row loads to the same set as the file with the block
    once. *)
Theorem GetContents_duplicates_irrelevant (w1 w2 : World) (path pre a post : string)
    (p : process) :
  pre = EmptyString ∨ (∃ pre', pre = pre' +:+ nl) →
  backing_file w1 path = Some (pre +:+ (a +:+ nl) +:+ (a +:+ nl) +:+ post) →
  backing_file w2 path = Some (pre +:+ (a +:+ nl) +:+ post) →
  ∃ c p1 p2,
    GetContents w1 path p = Ret c p1 ∧ GetContents w2 path p = Ret c p2.
Proof.
  intros Hpre H1 H2. apply line_start_whole_lines in Hpre.
  pose proof (whole_lines_snoc_nl a) as Ha.
  rewrite !GetContents_eq. eexists _, _, _. split; [reflexivity|].
  f_equal. unfold entries_of. rewrite H1, H2.
  apply while_getline_same_lines. intros l _.
  rewrite (line_of_app pre ((a +:+ nl) +:+ (a +:+ nl) +:+ post)),
    (line_of_app (a +:+ nl) ((a +:+ nl) +:+ post)) by done.
  rewrite (line_of_app pre ((a +:+ nl) +:+ post)),
    (line_of_app (a +:+ nl) post) by done.
  tauto.
Qed.

Lemma GetContents_duplicates_irrelevant_witness :
  let path := "third_party/protobuf/compiler/allowlists/test_allowlist.txt" in
  let w1 := single_file_world path
              (EmptyString +:+ ("a/b.c" +:+ nl) +:+ ("a/b.c" +:+ nl) +:+ "d/e.c") in
  let w2 := single_file_world path
              (EmptyString +:+ ("a/b.c" +:+ nl) +:+ "d/e.c") in
  (EmptyString = EmptyString ∨ (∃ pre', EmptyString = pre' +:+ nl))
  ∧ backing_file w1 path
    = Some (EmptyString +:+ ("a/b.c" +:+ nl) +:+ ("a/b.c" +:+ nl) +:+ "d/e.c")
  ∧ backing_file w2 path = Some (EmptyString +:+ ("a/b.c" +:+ nl) +:+ "d/e.c")
  ∧ ∃ c p1 p2,
      GetContents w1 path initial_process = Ret c p1
      ∧ GetContents w2 path initial_process = Ret c p2.
Proof.
  intros path w1 w2.
  assert (H1 : EmptyString = EmptyString ∨ (∃ pre', EmptyString = pre' +:+ nl))
    by (left; reflexivity).
  assert (H2 : backing_file w1 path
               = Some (EmptyString +:+ ("a/b.c" +:+ nl) +:+ ("a/b.c" +:+ nl) +:+ "d/e.c"))
    by reflexivity.
  assert (H3 : backing_file w2 path
               = Some (EmptyString +:+ ("a/b.c" +:+ nl) +:+ "d/e.c"))
    by reflexivity.
  split_and!; [exact H1 | exact H2 | exact H3 |].
  exact (GetContents_duplicates_irrelevant w1 w2 path EmptyString "a/b.c" "d/e.c"
           initial_process H1 H2 H3).
Defined.

(** ** Queries and the four lists *)

Section Registered.

Lemma registry_lookup_unregistered (w : World) (n : string) :
  n ∉ ({[ "weak_imports"; "test_allowlist_empty_allow_all";
          "test_allowlist_empty_allow_none"; "test_allowlist" ]} : gset string) →
  registry w !! n = None.
Proof. rewrite <- (registry_dom w). apply not_elem_of_dom. Qed.

Lemma registry_lookup_registered (w : World) (n : string) :
  n ∈ ({[ "weak_imports"; "test_allowlist_empty_allow_all";
          "test_allowlist_empty_allow_none"; "test_allowlist" ]} : gset string) →
  registry w !! n
  = Some (internal.mkAllowlistInfo (entries_of w (local_path_of n))
            (if bool_decide (n = "test_allowlist_empty_allow_all")
             then internal.kAllowAllWhenEmpty else internal.kNone)).
Proof.
  rewrite !elem_of_union, !elem_of_singleton. rewrite registry_inserts.
  intros [[[-> | ->] | ->] | ->].
  - do 3 (rewrite lookup_insert_ne by done). by rewrite lookup_insert_eq.
  - do 2 (rewrite lookup_insert_ne by done). by rewrite lookup_insert_eq.
  - rewrite lookup_insert_ne by done. by rewrite lookup_insert_eq.
  - by rewrite lookup_insert_eq.
Qed.

Lemma entries_of_iff (w : World) (path l : string) :
  l ∈ entries_of w path
  ↔ ∃ s, backing_file w path = Some s ∧ line_of s l ∧ StartsWith l "//" = false.
Proof.
  unfold entries_of. destruct (backing_file w path) as [s|].
  - rewrite fresh_entries. split; [by exists s|].
    by intros (s' & [= <-] & H).
  - rewrite elem_of_empty. split; [done|]. by intros (s' & [=] & _).
Qed.

End Registered.

(** X9. A query returns a boolean exactly for the four names of the
    registry: for each of them the call returns, for every other name it
    ends the process in the failed check. *)
Theorem IsAllowlisted_returns_iff_registered (w : World) (n f : string)
    (p : process) :
  reachable p →
  let names : gset string :=
    {[ "weak_imports"; "test_allowlist_empty_allow_all";
       "test_allowlist_empty_allow_none"; "test_allowlist" ]} in
  (n ∈ names → ∃ b p', IsAllowlisted w n f p = Ret b p')
  ∧ (n ∉ names → IsAllowlisted w n f p = Fatal CheckFailed).
Proof.
  intros Hr names. rewrite IsAllowlisted_eq.
  destruct (LoadAllowlists_returns w p) as (m & p' & Hload & _).
  rewrite Hload.
  assert (∃ w0, m = registry w0) as [w0 ->].
  { apply LoadAllowlists_static in Hload as [_ [Hp | [_ ->]]]; [|by eauto].
    by apply (reachable_static p). }
  split; intros Hn.
  - rewrite (registry_lookup_registered _ _ Hn). eauto.
  - by rewrite (registry_lookup_unregistered _ _ Hn).
Qed.

Lemma IsAllowlisted_returns_iff_registered_witness :
  let names : gset string :=
    {[ "weak_imports"; "test_allowlist_empty_allow_all";
       "test_allowlist_empty_allow_none"; "test_allowlist" ]} in
  reachable initial_process
  ∧ "weak_imports" ∈ names
  ∧ (∃ b p', IsAllowlisted example_world "weak_imports" "a/b.c" initial_process
             = Ret b p')
  ∧ ("weak_import" ∉ names)
  ∧ IsAllowlisted example_world "weak_import" "a/b.c" initial_process
    = Fatal CheckFailed.
Proof.
  intros names.
  assert (H1 : "weak_imports" ∈ names) by (apply (bool_decide_unpack _); vm_compute; exact I).
  assert (H2 : "weak_import" ∉ names) by (apply (bool_decide_unpack _); vm_compute; exact I).
  split_and!; [exact reachable_initial | exact H1 | | exact H2 |].
  - exact (proj1 (IsAllowlisted_returns_iff_registered example_world "weak_imports"
                    "a/b.c" initial_process reachable_initial) H1).
  - exact (proj2 (IsAllowlisted_returns_iff_registered example_world "weak_import"
                    "a/b.c" initial_process reachable_initial) H2).
Defined.

(** X10. [map.at] never fails in [IsAllowlisted]: whatever the state of the
    process, a query either returns or ends in the failed [ABSL_CHECK]. *)
Theorem IsAllowlisted_at_never_fails (w : World) (n f : string) (p : process) :
  IsAllowlisted w n f p ≠ Fatal OutOfRange.
Proof.
  rewrite IsAllowlisted_eq.
  destruct (LoadAllowlists_returns w p) as (m & p' & -> & _).
  by destruct (m !! n).
Qed.

(** X11. What a first query answers, read off the file: for each of the four
    names, the query is true exactly when the file read for the name has the
    queried string as a line that does not start with [//], or when that
    file has no such line at all (or cannot be opened) and the name is
    [test_allowlist_empty_allow_all]. *)
Theorem IsAllowlisted_from_file (w : World) (n f : string) (p : process) :
  static_map p = None →
  n ∈ ({[ "weak_imports"; "test_allowlist_empty_allow_all";
          "test_allowlist_empty_allow_none"; "test_allowlist" ]} : gset string) →
  let entry := fun l =>
    ∃ s, backing_file w (kAllowlistPathPrefix +:+ n +:+ ".txt") = Some s
         ∧ line_of s l ∧ StartsWith l "//" = false in
  ∃ b p',
    IsAllowlisted w n f p = Ret b p'
    ∧ (b = true ↔ (entry f ∨ ((∀ l, ¬ entry l)
                              ∧ n = "test_allowlist_empty_allow_all"))).
Proof.
  intros Hp Hn entry.
  rewrite (IsAllowlisted_fresh _ _ _ _ _ Hp (registry_lookup_registered w n Hn)).
  eexists _, _. split; [reflexivity|].
  assert (Hentry : ∀ l, l ∈ entries_of w (local_path_of n) ↔ entry l)
    by (intros l; apply entries_of_iff).
  unfold answer, internal.empty, internal.IsAllowlisted. simpl.
  case_bool_decide as He; simpl.
  - assert (Hno : ∀ l, ¬ entry l).
    { intros l Hl. apply Hentry in Hl. rewrite He in Hl.
      by apply elem_of_empty in Hl. }
    rewrite bool_decide_eq_true. split.
    + case_bool_decide as Hname; [by right | discriminate].
    + intros [Hf | [_ ->]]; [by apply Hno in Hf | done].
  - rewrite bool_decide_eq_true, Hentry. split; [by left|].
    intros [Hf | [Hno _]]; [done|]. exfalso. apply He.
    apply set_eq. intros l. rewrite Hentry, elem_of_empty.
    split; [apply Hno | done].
Qed.

Lemma IsAllowlisted_from_file_witness :
  let entry := fun l =>
    ∃ s, backing_file example_world
           (kAllowlistPathPrefix +:+ "test_allowlist" +:+ ".txt") = Some s
         ∧ line_of s l ∧ StartsWith l "//" = false in
  static_map initial_process = None
  ∧ "test_allowlist"
      ∈ ({[ "weak_imports"; "test_allowlist_empty_allow_all";
            "test_allowlist_empty_allow_none"; "test_allowlist" ]} : gset string)
  ∧ ∃ b p',
      IsAllowlisted example_world "test_allowlist" "d/e.c" initial_process = Ret b p'
      ∧ (b = true ↔ (entry "d/e.c" ∨ ((∀ l, ¬ entry l)
                                      ∧ "test_allowlist"
                                        = "test_allowlist_empty_allow_all"))).
Proof.
  intros entry.
  assert (H1 : static_map initial_process = None) by reflexivity.
  assert (H2 : "test_allowlist"
                 ∈ ({[ "weak_imports"; "test_allowlist_empty_allow_all";
                       "test_allowlist_empty_allow_none"; "test_allowlist" ]}
                    : gset string))
    by (apply (bool_decide_unpack _); vm_compute; exact I).
  split; [exact H1|]. split; [exact H2|].
  exact (IsAllowlisted_from_file example_world "test_allowlist" "d/e.c"
           initial_process H1 H2).
Defined.

(** X12. The answer for a name depends on the file of that name alone: two
    environments in which the file read for the name is the same give the
    same answer to a first query, whatever their other files hold. *)
Theorem IsAllowlisted_own_file_only (w1 w2 : World) (n f : string)
    (p1 p2 : process) :
  static_map p1 = None →
  static_map p2 = None →
  n ∈ ({[ "weak_imports"; "test_allowlist_empty_allow_all";
          "test_allowlist_empty_allow_none"; "test_allowlist" ]} : gset string) →
  backing_file w1 (kAllowlistPathPrefix +:+ n +:+ ".txt")
  = backing_file w2 (kAllowlistPathPrefix +:+ n +:+ ".txt") →
  ∃ b p1' p2',
    IsAllowlisted w1 n f p1 = Ret b p1' ∧ IsAllowlisted w2 n f p2 = Ret b p2'.
Proof.
  intros Hp1 Hp2 Hn Hsame.
  rewrite (IsAllowlisted_fresh _ _ _ _ _ Hp1 (registry_lookup_registered w1 n Hn)).
  rewrite (IsAllowlisted_fresh _ _ _ _ _ Hp2 (registry_lookup_registered w2 n Hn)).
  eexists _, _, _. split; [reflexivity|]. f_equal.
  unfold entries_of, local_path_of. by rewrite Hsame.
Qed.

Lemma IsAllowlisted_own_file_only_witness :
  let path := kAllowlistPathPrefix +:+ "test_allowlist" +:+ ".txt" in
  let w2 := single_file_world
              "/runfiles/google3/third_party/protobuf/compiler/allowlists/test_allowlist.txt"
              ("// comment" +:+ nl +:+ "a/b.c" +:+ nl +:+ "d/e.c") in
  static_map initial_process = None
  ∧ static_map initial_process = None
  ∧ "test_allowlist"
      ∈ ({[ "weak_imports"; "test_allowlist_empty_allow_all";
            "test_allowlist_empty_allow_none"; "test_allowlist" ]} : gset string)
  ∧ backing_file example_world path = backing_file w2 path
  ∧ ∃ b p1' p2',
      IsAllowlisted example_world "test_allowlist" "a/b.c" initial_process
      = Ret b p1'
      ∧ IsAllowlisted w2 "test_allowlist" "a/b.c" initial_process = Ret b p2'.
Proof.
  intros path w2.
  assert (H1 : static_map initial_process = None) by reflexivity.
  assert (H2 : "test_allowlist"
                 ∈ ({[ "weak_imports"; "test_allowlist_empty_allow_all";
                       "test_allowlist_empty_allow_none"; "test_allowlist" ]}
                    : gset string))
    by (apply (bool_decide_unpack _); vm_compute; exact I).
  assert (H3 : backing_file example_world path = backing_file w2 path)
    by reflexivity.
  split_and!; [exact H1 | exact H1 | exact H2 | exact H3 |].
  exact (IsAllowlisted_own_file_only example_world w2 "test_allowlist" "a/b.c"
           initial_process initial_process H1 H1 H2 H3).
Defined.

(** ** What a process run reads *)

Section RunFacts.

(** Queries on an initialised process answer from the map in the static. *)
Lemma run_initialised_answers (qs : list query) (p p' : process)
    (m : AllowlistMap) (bs : list bool) :
  static_map p = Some m →
  run qs p = Ret bs p' →
  Forall2 (fun q b => ∃ info, m !! q_allowlist q = Some info
                              ∧ b = answer info (q_file q)) qs bs.
Proof.
  intros Hp. revert bs p'. induction qs as [|q qs IH]; intros bs p'.
  - intros [= <- _]. constructor.
  - simpl. unfold mbind, M_bind.
    rewrite (IsAllowlisted_initialised _ _ _ _ _ Hp).
    destruct (m !! q_allowlist q) as [info|] eqn:Hq; [|discriminate].
    destruct (run qs p) as [bs' p1|] eqn:Hrun; [|discriminate].
    intros [= <- _]. constructor; [by exists info | by apply (IH bs' p1)].
Qed.

Lemma attempts_length (w : World) (path : string) :
  1 ≤ length (attempts w path) ≤ 2.
Proof.
  unfold attempts. destruct (file_contents w (full_path_of w path)); simpl; lia.
Qed.

Lemma attempts_elem (w : World) (path x : string) :
  x ∈ attempts w path →
  x = path ∨ x = GetRunfilesDir w +:+ "/google3/" +:+ path.
Proof.
  unfold attempts, full_path_of.
  destruct (file_contents w _); rewrite ?elem_of_cons, ?elem_of_nil; tauto.
Qed.

End RunFacts.

(** X13. The registry is that of the first query: in a run of queries from
    the initial process, every answer is the one the same query would have
    got as the first query in the environment of the first query, and the
    run leaves the process as that first load left it.  Files that change
    later are never read. *)
Theorem run_answers_from_first_load (q1 : query) (qs : list query)
    (bs : list bool) (p : process) :
  run (q1 :: qs) initial_process = Ret bs p →
  ∃ m,
    LoadAllowlists (q_world q1) initial_process = Ret m p
    ∧ length bs = length (q1 :: qs)
    ∧ ∀ i q b,
        (q1 :: qs) !! i = Some q →
        bs !! i = Some b →
        IsAllowlisted (q_world q1) (q_allowlist q) (q_file q) initial_process
        = Ret b p.
Proof.
  intros Hrun.
  assert (Hall : ∃ p1, static_map p1 = Some (registry (q_world q1))
                       ∧ LoadAllowlists (q_world q1) initial_process
                         = Ret (registry (q_world q1)) p1
                       ∧ p = p1
                       ∧ Forall2 (fun q b =>
                            ∃ info, registry (q_world q1) !! q_allowlist q = Some info
                                    ∧ b = answer info (q_file q)) (q1 :: qs) bs).
  { revert Hrun. simpl. unfold mbind at 1, M_bind at 1.
    destruct (IsAllowlisted (q_world q1) (q_allowlist q1) (q_file q1)
                initial_process) as [b1 p1|] eqn:Hfirst; [|discriminate].
    apply IsAllowlisted_Ret in Hfirst as (m & info & Hload & Hn & ->).
    pose proof Hload as Hload'.
    apply LoadAllowlists_static in Hload' as [Hp1 [Hp | [_ ->]]]; [discriminate|].
    unfold mbind, M_bind.
    destruct (run qs p1) as [bs' p2|] eqn:Hrest; [|discriminate].
    intros [= <- <-]. exists p1. split; [done|]. split; [done|].
    split; [by apply (run_initialised _ _ _ _ _ Hp1) in Hrest|].
    constructor; [by exists info|].
    by apply (run_initialised_answers _ _ _ _ _ Hp1 Hrest). }
  destruct Hall as (p1 & Hp1 & Hload & -> & Hans).
  exists (registry (q_world q1)). split; [exact Hload|].
  split; [symmetry; by apply (Forall2_length _ _ _ Hans)|].
  intros i q b Hq Hb.
  destruct (Forall2_lookup_lr _ _ _ _ _ _ Hans Hq Hb) as (info & Hinfo & ->).
  rewrite (IsAllowlisted_fresh _ _ _ initial_process info eq_refl Hinfo). f_equal.
  revert Hload. rewrite LoadAllowlists_eq. simpl. by intros [= <-].
Qed.

Lemma run_answers_from_first_load_witness :
  let q1 := mkQuery example_world "test_allowlist" "a/b.c" in
  let qs := [mkQuery uncommented_world "weak_imports" "x/y.c";
             mkQuery (single_file_world "third_party/protobuf/compiler/allowlists/test_allowlist.txt" EmptyString)
               "test_allowlist" "d/e.c"] in
  let p := mkProcess (Some (registry example_world)) (registry_attempts example_world) in
  run (q1 :: qs) initial_process = Ret [true; false; true] p
  ∧ ∃ m,
      LoadAllowlists (q_world q1) initial_process = Ret m p
      ∧ length [true; false; true] = length (q1 :: qs)
      ∧ ∀ i q b,
          (q1 :: qs) !! i = Some q →
          [true; false; true] !! i = Some b →
          IsAllowlisted (q_world q1) (q_allowlist q) (q_file q) initial_process
          = Ret b p.
Proof.
  intros q1 qs p.
  assert (H1 : run (q1 :: qs) initial_process = Ret [true; false; true] p)
    by reflexivity.
  split; [exact H1|].
  exact (run_answers_from_first_load q1 qs [true; false; true] p H1).
Defined.

(** X14. Initialising the registry constructs at least four and at most
    eight streams, and only on the two candidate locations of the four
    names; no other file is touched. *)
Theorem LoadAllowlists_opens (w : World) (p p' : process) (m : AllowlistMap) :
  static_map p = None →
  LoadAllowlists w p = Ret m p' →
  ∃ new,
    opened p' = opened p ++ new
    ∧ 4 ≤ length new ≤ 8
    ∧ ∀ path, path ∈ new →
        ∃ n, n ∈ dom m
             ∧ (path = kAllowlistPathPrefix +:+ n +:+ ".txt"
                ∨ path = GetRunfilesDir w +:+ "/google3/"
                         +:+ kAllowlistPathPrefix +:+ n +:+ ".txt").
Proof.
  intros Hp. rewrite LoadAllowlists_eq, Hp. intros [= <- <-].
  exists (registry_attempts w). split; [reflexivity|]. split.
  - unfold registry_attempts. rewrite !length_app.
    pose proof (attempts_length w (local_path_of "weak_imports")).
    pose proof (attempts_length w (local_path_of "test_allowlist_empty_allow_all")).
    pose proof (attempts_length w (local_path_of "test_allowlist_empty_allow_none")).
    pose proof (attempts_length w (local_path_of "test_allowlist")).
    lia.
  - intros path. unfold registry_attempts. rewrite !elem_of_app.
    rewrite registry_dom.
    intros [H | [H | [H | H]]]; apply attempts_elem in H;
      [exists "weak_imports" | exists "test_allowlist_empty_allow_all"
       | exists "test_allowlist_empty_allow_none" | exists "test_allowlist"];
      (split; [rewrite !elem_of_union, !elem_of_singleton; tauto | exact H]).
Qed.

Lemma LoadAllowlists_opens_witness :
  let p' := mkProcess (Some (registry example_world)) (registry_attempts example_world) in
  static_map initial_process = None
  ∧ LoadAllowlists example_world initial_process = Ret (registry example_world) p'
  ∧ ∃ new,
      opened p' = opened initial_process ++ new
      ∧ 4 ≤ length new ≤ 8
      ∧ ∀ path, path ∈ new →
          ∃ n, n ∈ dom (registry example_world)
               ∧ (path = kAllowlistPathPrefix +:+ n +:+ ".txt"
                  ∨ path = GetRunfilesDir example_world +:+ "/google3/"
                           +:+ kAllowlistPathPrefix +:+ n +:+ ".txt").
Proof.
  intros p'.
  assert (H1 : static_map initial_process = None) by reflexivity.
  assert (H2 : LoadAllowlists example_world initial_process
               = Ret (registry example_world) p') by reflexivity.
  split; [exact H1|]. split; [exact H2|].
  exact (LoadAllowlists_opens example_world initial_process p'
           (registry example_world) H1 H2).
Defined.
